(** * PhishGuard backend: scoring engine of [src/extension/background.js]

    A shallow embedding of the URL aggregator ([aggregateSignals]), the
    heuristic extractor ([heuristicsScore]), the header and body analysers
    and the two endpoints [POST /scan] and [POST /scan-email], followed by
    the properties the specification states about them.

    Conventions of the embedding.
    - JavaScript numbers are [number]: a rational, [NaN] or an infinity.
      The sign of zero is not tracked.  Every arithmetic step of the source
      is exact on the values it meets: the weights 0.5 and 0.25 are dyadic,
      the quotient by the total weight has its fractional part among 0,
      1/3 and 2/3, and the email blend is a multiple of 1/5, so no value
      handed to [Math.round] is within rounding error of a tie.
    - Integer-only counters of the source (heuristic points, header and
      body points, redirect counts) are [Z].
    - A key that may be missing from an object is an [option] field.
    - Exceptions are explicit: a computation that may throw is an
      [outcome], and [try]/[catch] is [try_catch].
    - Built-ins whose behaviour is fixed by the platform and not by this
      repository ([URL], [Number] on strings, [toLowerCase], the regular
      expression engine) are fields of [Platform]; network answers and the
      clock are fields of [World]. *)

From Stdlib Require Import ZArith QArith Qround String Ascii List Lia Lqa Bool.
From stdpp Require Import gmap strings.
Import ListNotations.

Open Scope Z_scope.

(** ** JavaScript numbers and the [Math] functions the source calls *)

Module JS.

Inductive number : Type :=
  | Num (q : Q)
  | NaN
  | PInf
  | NInf.

Definition ofZ (z : Z) : number := Num (inject_Z z).

Definition Qltb (x y : Q) : bool := negb (Qle_bool y x).

(** [a < b]; every comparison with [NaN] is false. *)
Definition lt (a b : number) : bool :=
  match a, b with
  | NaN, _ | _, NaN => false
  | Num x, Num y => Qltb x y
  | NInf, NInf => false
  | NInf, _ => true
  | _, NInf => false
  | PInf, _ => false
  | Num _, PInf => true
  end.

(** [a <= b]. *)
Definition le (a b : number) : bool :=
  match a, b with
  | NaN, _ | _, NaN => false
  | Num x, Num y => Qle_bool x y
  | NInf, _ => true
  | _, NInf => false
  | _, PInf => true
  | PInf, Num _ => false
  end.

Definition gt (a b : number) : bool := lt b a.
Definition ge (a b : number) : bool := le b a.

Definition add (a b : number) : number :=
  match a, b with
  | NaN, _ | _, NaN => NaN
  | Num x, Num y => Num (x + y)
  | PInf, NInf | NInf, PInf => NaN
  | PInf, _ | _, PInf => PInf
  | NInf, _ | _, NInf => NInf
  end.

Definition scale_inf (positive : bool) (q : Q) : number :=
  if Qeq_bool q 0 then NaN
  else if Qltb 0 q then (if positive then PInf else NInf)
  else (if positive then NInf else PInf).

Definition mul (a b : number) : number :=
  match a, b with
  | NaN, _ | _, NaN => NaN
  | Num x, Num y => Num (x * y)
  | PInf, Num y | Num y, PInf => scale_inf true y
  | NInf, Num y | Num y, NInf => scale_inf false y
  | PInf, PInf | NInf, NInf => PInf
  | PInf, NInf | NInf, PInf => NaN
  end.

Definition div (a b : number) : number :=
  match a, b with
  | NaN, _ | _, NaN => NaN
  | Num x, Num y =>
      if Qeq_bool y 0 then scale_inf true x else Num (x / y)
  | Num _, (PInf | NInf) => Num 0
  | PInf, Num y => if Qltb y 0 then NInf else PInf
  | NInf, Num y => if Qltb y 0 then PInf else NInf
  | (PInf | NInf), (PInf | NInf) => NaN
  end.

(** [Math.round]: nearest integer, ties towards [+Infinity]. *)
Definition Math_round (a : number) : number :=
  match a with
  | Num q => ofZ (Qfloor (q + (1 # 2)))
  | other => other
  end.

Definition Math_min (a b : number) : number :=
  match a, b with
  | NaN, _ | _, NaN => NaN
  | _, _ => if lt b a then b else a
  end.

Definition Math_max (a b : number) : number :=
  match a, b with
  | NaN, _ | _, NaN => NaN
  | _, _ => if lt a b then b else a
  end.

(** Values a field of a parsed JSON payload can hold.  An array behaves
    like the string of its [join] under [Number] and like an object under
    [!!], so it adds no behaviour of its own. *)
Inductive value : Type :=
  | VUndefined
  | VNull
  | VBool (b : bool)
  | VNumber (n : number)
  | VString (s : string)
  | VPlainObject.

(** [!!v] *)
Definition truthy (v : value) : bool :=
  match v with
  | VUndefined | VNull => false
  | VBool b => b
  | VNumber (Num q) => negb (Qeq_bool q 0)
  | VNumber NaN => false
  | VNumber _ => true
  | VString s => negb (String.eqb s "")
  | VPlainObject => true
  end.

(** [v == null] *)
Definition loosely_null (v : value) : bool :=
  match v with
  | VUndefined | VNull => true
  | _ => false
  end.

(** [Number.isNaN(v)]: no coercion, true for the number [NaN] only. *)
Definition Number_isNaN (v : value) : bool :=
  match v with
  | VNumber NaN => true
  | _ => false
  end.

(** Truthiness of an optional string: [undefined] and [''] are falsy. *)
Definition truthy_str (s : option string) : bool :=
  match s with
  | Some s => negb (String.eqb s "")
  | None => false
  end.

(** [s || ''] *)
Definition or_empty (s : option string) : string :=
  match s with
  | Some s => s
  | None => ""
  end.

(** [a || b] on optional strings: the first truthy one. *)
Definition or_else (a b : option string) : option string :=
  if truthy_str a then a else b.

(** [s.startsWith(p)] *)
Definition startsWith (s p : string) : bool := String.prefix p s.

(** [s.includes(sub)] *)
Fixpoint includes (s sub : string) : bool :=
  String.prefix sub s ||
  match s with
  | EmptyString => false
  | String _ rest => includes rest sub
  end.

(** [s.split('.')]: never empty. *)
Fixpoint split_dot (s : string) : list string :=
  match s with
  | EmptyString => [EmptyString]
  | String c rest =>
      if Ascii.eqb c "."%char then EmptyString :: split_dot rest
      else match split_dot rest with
           | seg :: segs => String c seg :: segs
           | [] => [String c EmptyString]
           end
  end.

(** [arr.pop()] of a freshly split array: its last element. *)
Definition pop (segs : list string) : option string := List.last (map Some segs) None.

(** [recs.join('')] *)
Definition join_empty (chunks : list string) : string :=
  fold_right String.append EmptyString chunks.

(** Exceptions: a computation returns or throws. *)
Inductive outcome (A : Type) : Type :=
  | Return (a : A)
  | Throw.
Arguments Return {A} a.
Arguments Throw {A}.

Definition bind {A B} (m : outcome A) (k : A -> outcome B) : outcome B :=
  match m with
  | Return a => k a
  | Throw => Throw
  end.

(** [try { body } catch (e) { handler }] *)
Definition try_catch {A} (body handler : outcome A) : outcome A :=
  match body with
  | Return a => Return a
  | Throw => handler
  end.

End JS.

Import JS.

Notation "'let!' x ':=' m 'in' k" := (bind m (fun x => k))
  (at level 10, x name, m at level 100, k at level 200).

(** ** Platform built-ins and configuration *)

(** Built-ins of the JavaScript platform the source relies on.  The regular
    expressions are the literals of the source; what the engine answers for
    them is taken as given. *)
Record Platform : Type := {
  (** [new URL(s).hostname]; [None] when the constructor throws. *)
  URL_hostname : string -> option string;
  (** [Number(s)] for a string [s]. *)
  StringToNumber : string -> number;
  (** [s.toLowerCase()] *)
  toLowerCase : string -> string;
  (** [m[0]] of
      [s.match(/https?:\/\/[^\s/]+|www\.[^\s/]+|[a-z0-9.-]+\.[a-z]{2,}/i)] *)
  match_host_token : string -> option string;
  (** [m[1]] of
      [s.match(/from:.*<([a-z0-9._%+-]+@[a-z0-9.-]+\.[a-z]{2,})>/)] *)
  match_from : string -> option string;
  (** [m[1]] of
      [s.match(/return-path:.*<([a-z0-9._%+-]+@[a-z0-9.-]+\.[a-z]{2,})>/)] *)
  match_return_path : string -> option string
}.

(** [process.env] after the [|| null] and [|| 60 * 60] defaults. *)
Record Config : Type := {
  IPQS_API_KEY : option string;
  STALKPHISH_API_KEY : option string;
  CACHE_TTL_SECONDS : Z
}.

Definition MALICIOUS_THRESHOLD : number := ofZ 80.
Definition SUSPICIOUS_THRESHOLD : number := ofZ 50.

Module WEIGHTS.

Definition ipqs : number := Num (1 # 2).
Definition stalkphish : number := Num (1 # 4).
Definition heuristics : number := ofZ 15.

End WEIGHTS.

(** ** Data model *)

Inductive Verdict : Type := safe | suspicious | malicious.

(** The payload of the IPQS answer ([r.data]); a key the payload lacks is
    [VUndefined]. *)
Record IpqsData : Type := {
  fraud_score : value;
  d_malicious : value;
  d_phishing : value;
  d_malware : value;
  d_suspicious : value
}.

Record Flags : Type := {
  flag_malicious : bool;
  flag_phishing : bool;
  flag_malware : bool;
  flag_suspicious : bool
}.

(** What [callIPQS] returns when it does not return [null]; its [raw]
    field is never read and is left out. *)
Record IpqsResult : Type := {
  ipqs_score : option number;
  ipqs_flags : Flags
}.

(** The payload of the StalkPhish answer; a falsy payload has no
    [riskScore] and is the record with [VUndefined]. *)
Record StalkData : Type := { riskScore : value }.

Record StalkResult : Type := { stalk_score : option number }.

(** What [getRedirectInfo] reads of the axios response:
    [r.request?.res?.responseUrl], [r.request?.path] and
    [r.request?._redirectable?._redirectCount]. *)
Record HttpTrace : Type := {
  responseUrl : option string;
  request_path : option string;
  redirect_hops : option Z
}.

Record RedirectInfo : Type := {
  finalUrl : option string;
  redirectCount : Z
}.

Record DomainAuth : Type := { spf : bool; dmarc : bool }.

(** The world one request runs in.  A lookup that throws or times out is
    [None]; so is an IPQS answer with a [null] payload, on which the field
    access throws inside the [try]. *)
Record World : Type := {
  (** [Date.now()] when the request reads the cache *)
  now : Z;
  (** [Date.now()] when its lookups have settled and it writes the cache *)
  settled : Z;
  ipqs_response : string -> option IpqsData;
  stalkphish_response : string -> option StalkData;
  http_response : string -> option HttpTrace;
  (** [dns.resolveTxt(name)]: records, each a list of chunks *)
  dns_txt : string -> option (list (list string))
}.

Record ScanTarget : Type := {
  url : string;
  anchorText : option string;
  senderDomain : option string
}.

(** The [breakdown] of a URL result is the object literal of the source,
    which has no keys. *)
Inductive UrlBreakdown : Type := EmptyBreakdown.

(** The object [aggregateSignals] resolves to; [r_cached] is the optional
    key [cached]. *)
Record ScanResult : Type := {
  r_url : string;
  r_verdict : Verdict;
  r_score : number;
  r_breakdown : UrlBreakdown;
  r_cached : option bool
}.

(** node-cache keeps with each value the instant [t] it expires at, 0 for
    never. *)
Record Entry : Type := {
  e_value : ScanResult;
  e_expires : Z
}.

(** The lookups a request issues, in the order it issues them. *)
Inductive Call : Type :=
  | CallIPQS (url : string)
  | CallStalkPhish (url : string)
  | GetRedirectInfo (url : string)
  | CheckDomainAuth (domain : string).

(** The state of the server process: the shared cache and, as a ghost
    trace, the lookups issued so far. *)
Record Server : Type := {
  cache : gmap string Entry;
  calls : list Call
}.

(** *** Email analysis and HTTP *)

Inductive AuthMark : Type := neutral | pass | fail.

Record HeaderReport : Type := {
  rep_spf : AuthMark;
  rep_dkim : AuthMark;
  rep_dmarc : AuthMark;
  mismatch_from_return : bool
}.

Record Link : Type := {
  href : string;
  link_anchorText : option string
}.

(** [req.body] of [POST /scan-email]; a missing request body is the record
    of three missing keys ([req.body || {}]). *)
Record EmailRequest : Type := {
  headers : option string;
  body : option string;
  links : option (list Link)
}.

(** [req.body] of [POST /scan]. *)
Record ScanRequest : Type := {
  req_url : option string;
  req_anchorText : option string;
  req_senderDomain : option string
}.

(** [mostMaliciousLink]: [null] or [{ url, score }]. *)
Record LinkAnalysis : Type := {
  highestLinkScore : number;
  mostMaliciousLink : option (string * number)
}.

Record EmailBreakdown : Type := {
  headerAnalysis : HeaderReport;
  bodyAnalysis_keywords : list string;
  linkAnalysis : LinkAnalysis;
  breakdown_finalScore : number
}.

(** The object handed to [res.json]. *)
Inductive ResponseBody : Type :=
  (** [{ error }] or [{ ok: false, error }] *)
  | ErrorBody (ok : option bool) (error : string)
  (** [{ ok: true, ...aggregated }] *)
  | ScanBody (ok : bool) (aggregated : ScanResult)
  (** [{ ok: true, verdict, score, breakdown }] *)
  | EmailBody (ok : bool) (verdict : Verdict) (score : number)
              (breakdown : EmailBreakdown).

Record Response : Type := {
  status : Z;
  json : ResponseBody
}.

(** ** A concrete platform and concrete worlds for the examples *)

Module Sample.

Definition lower_ascii (c : ascii) : ascii :=
  let n := N_of_ascii c in
  if (65 <=? n)%N && (n <=? 90)%N then ascii_of_N (n + 32) else c.

Fixpoint lower (s : string) : string :=
  match s with
  | EmptyString => EmptyString
  | String c rest => String (lower_ascii c) (lower rest)
  end.

(** The characters of [s] up to the first [/] or space. *)
Fixpoint token (s : string) : string :=
  match s with
  | EmptyString => EmptyString
  | String c rest =>
      if Ascii.eqb c "/"%char || Ascii.eqb c " "%char then EmptyString
      else String c (token rest)
  end.

Definition drop (n : nat) (s : string) : string :=
  String.substring n (String.length s - n) s.

(** Hostname of an absolute http(s) URL with a plain, bracket-free host;
    anything else is rejected, as [new URL] rejects a relative reference
    or an unterminated IPv6 literal. *)
Definition hostname_of (s : string) : option string :=
  let after :=
    if String.prefix "https://" s then Some (drop 8 s)
    else if String.prefix "http://" s then Some (drop 7 s)
    else None in
  match after with
  | Some rest =>
      let h := lower (token rest) in
      if String.eqb h "" || includes h "[" then None else Some h
  | None => None
  end.

Fixpoint decimal (acc : Z) (s : string) : option Z :=
  match s with
  | EmptyString => Some acc
  | String c rest =>
      let n := N_of_ascii c in
      if (48 <=? n)%N && (n <=? 57)%N
      then decimal (10 * acc + Z.of_N (n - 48)) rest
      else None
  end.

(** [Number] on the strings of the examples: a run of decimal digits is
    its value, a text with any other character has no numeric reading. *)
Definition number_of (s : string) : number :=
  match s with
  | EmptyString => ofZ 0
  | _ => match decimal 0 s with
         | Some z => ofZ z
         | None => NaN
         end
  end.

(** The first alternative of the host-token pattern on a text that begins
    with a scheme; the example texts are of that shape or hold no token. *)
Definition host_token (s : string) : option string :=
  if String.prefix "https://" s then Some ("https://" ++ token (drop 8 s))%string
  else if String.prefix "http://" s then Some ("http://" ++ token (drop 7 s))%string
  else None.

(** The header texts of the examples hold no bracketed address. *)
Definition platform : Platform :=
  {| URL_hostname := hostname_of;
     StringToNumber := number_of;
     toLowerCase := lower;
     match_host_token := host_token;
     match_from := fun _ => None;
     match_return_path := fun _ => None |}.

(** No API key configured; one-hour TTL. *)
Definition keyless : Config :=
  {| IPQS_API_KEY := None; STALKPHISH_API_KEY := None; CACHE_TTL_SECONDS := 3600 |}.

(** Both API keys configured. *)
Definition keyed : Config :=
  {| IPQS_API_KEY := Some "ipqs-key"; STALKPHISH_API_KEY := Some "stalk-key";
     CACHE_TTL_SECONDS := 3600 |}.

(** Every lookup fails; the request starts at [t] and settles 250 ms later. *)
Definition offline (t : Z) : World :=
  {| now := t; settled := t + 250;
     ipqs_response := fun _ => None;
     stalkphish_response := fun _ => None;
     http_response := fun _ => None;
     dns_txt := fun _ => None |}.

(** IPQS answers [{ fraud_score: score, malicious: true }] for every URL. *)
Definition ipqs_flags_malicious (score : value) (t : Z) : World :=
  {| now := t; settled := t + 250;
     ipqs_response := fun _ =>
       Some {| fraud_score := score; d_malicious := VBool true;
               d_phishing := VUndefined; d_malware := VUndefined;
               d_suspicious := VUndefined |};
     stalkphish_response := fun _ => None;
     http_response := fun _ => None;
     dns_txt := fun _ => None |}.

(** StalkPhish answers [{ riskScore: score }] for every URL. *)
Definition stalkphish_scores (score : value) (t : Z) : World :=
  {| now := t; settled := t + 250;
     ipqs_response := fun _ => None;
     stalkphish_response := fun _ => Some {| riskScore := score |};
     http_response := fun _ => None;
     dns_txt := fun _ => None |}.

Definition fresh : Server := {| cache := ∅; calls := [] |}.

Definition example_target : ScanTarget :=
  {| url := "http://example.com/login"; anchorText := None; senderDomain := None |}.

(** A link result as the aggregator stores it. *)
Definition linkResult (u : string) (score : Z) (v : Verdict) : ScanResult :=
  {| r_url := u; r_verdict := v; r_score := ofZ score;
     r_breakdown := EmptyBreakdown; r_cached := None |}.

(** One link scoring 95 among nine links scoring 0. *)
Definition tenLinks : list ScanResult :=
  [linkResult "http://a.example/" 0 safe; linkResult "http://b.example/" 0 safe;
   linkResult "http://c.example/" 0 safe; linkResult "http://d.example/" 95 malicious;
   linkResult "http://e.example/" 0 safe; linkResult "http://f.example/" 0 safe;
   linkResult "http://g.example/" 0 safe; linkResult "http://h.example/" 0 safe;
   linkResult "http://i.example/" 0 safe; linkResult "http://j.example/" 0 safe].

(** A second target, with another fingerprint. *)
Definition other_target : ScanTarget :=
  {| url := "http://other.example/"; anchorText := None; senderDomain := None |}.

(** Two targets whose fields differ and whose fingerprints coincide. *)
Definition collide_first : ScanTarget :=
  {| url := "http://a"; anchorText := Some "b::c"%string; senderDomain := None |}.

Definition collide_second : ScanTarget :=
  {| url := "http://a::b"; anchorText := Some "c"%string; senderDomain := None |}.


Definition example_scan_request : ScanRequest :=
  {| req_url := Some "http://example.com/login"%string;
     req_anchorText := None; req_senderDomain := None |}.

(** An alarming email without links. *)
Definition linkless_email : EmailRequest :=
  {| headers := Some "spf=fail; dkim=fail; dmarc=fail"%string;
     body := Some "URGENT: account suspended, verify your account"%string;
     links := None |}.

(** The same email with one link. *)
Definition one_link_email : EmailRequest :=
  {| headers := Some "spf=fail; dkim=fail; dmarc=fail"%string;
     body := Some "URGENT: account suspended, verify your account"%string;
     links := Some [{| href := "http://example.com/login";
                       link_anchorText := Some "Sign in"%string |}] |}.


End Sample.

(** ** Section 1 of the source: utility functions *)

Section Backend.

Context (P : Platform) (cfg : Config).

(** [Number(v)] *)
Definition ToNumber (v : value) : number :=
  match v with
  | VUndefined => NaN
  | VNull => ofZ 0
  | VBool b => if b then ofZ 1 else ofZ 0
  | VNumber n => n
  | VString s => StringToNumber P s
  | VPlainObject => NaN
  end.

Definition normalizeScore (n : value) : option number :=
  if loosely_null n || Number_isNaN n then None
  else Some (Math_max (ofZ 0) (Math_min (ofZ 100) (Math_round (ToNumber n)))).

Definition isPunycode (hostname : string) : bool := includes hostname "xn--".

Definition is_digit (c : ascii) : bool :=
  (48 <=? N_of_ascii c)%N && (N_of_ascii c <=? 57)%N.

(** [\d{1,3}] against a whole dot-free segment. *)
Definition digits_1_3 (seg : string) : bool :=
  match list_ascii_of_string seg with
  | [a] => is_digit a
  | [a; b] => is_digit a && is_digit b
  | [a; b; c] => is_digit a && is_digit b && is_digit c
  | _ => false
  end.

(** [/^(\d{1,3}\.){3}\d{1,3}$/.test(host)]: digits never match the dot, so
    the pattern holds exactly when the host splits at its dots into four
    segments of one to three digits. *)
Definition hasIPInHostname (hostname : string) : bool :=
  match split_dot hostname with
  | [a; b; c; d] => digits_1_3 a && digits_1_3 b && digits_1_3 c && digits_1_3 d
  | _ => false
  end.

Definition suspiciousTLDs : list string :=
  ["zip"; "review"; "country"; "kim"; "gq"; "work"; "top"; "men"; "party"]%string.

(** [suspiciousTLDs.has(tld)] *)
Definition suspiciousTLDs_has (tld : string) : bool :=
  existsb (String.eqb tld) suspiciousTLDs.

Definition is_w (c : ascii) : bool := Ascii.eqb c "w"%char || Ascii.eqb c "W"%char.

(** [s.replace(/^www\./i, '')] *)
Definition strip_www (s : string) : string :=
  match s with
  | String a (String b (String c (String d rest))) =>
      if is_w a && is_w b && is_w c && Ascii.eqb d "."%char then rest else s
  | _ => s
  end.

(** [new URL(s)], of which only [hostname] is read. *)
Definition new_URL (s : string) : outcome string :=
  match URL_hostname P s with
  | Some hostname => Return hostname
  | None => Throw
  end.

(** The [if (anchorText) { ... }] block of [heuristicsScore]. *)
Definition anchorPoints (hostname : string) (anchorText : option string) (score : Z)
  : outcome Z :=
  if truthy_str anchorText then
    match match_host_token P (or_empty anchorText) with
    | Some m0 =>
        try_catch
          (let! aHost := (if startsWith m0 "http" then new_URL m0
                          else Return (strip_www m0)) in
           if negb (String.eqb aHost "") && negb (String.eqb aHost hostname)
           then Return (score + 12) else Return score)
          (Return score)
    | None => Return score
    end
  else Return score.

(** The [if (finalUrl) { ... }] block of [heuristicsScore]. *)
Definition finalUrlPoints (hostname : string) (finalUrl : option string) (score : Z)
  : outcome Z :=
  if truthy_str finalUrl then
    try_catch
      (let! f := new_URL (or_empty finalUrl) in
       if negb (String.eqb f hostname) then Return (score + 6) else Return score)
      (Return score)
  else Return score.

Definition heuristicsScore (url : string) (anchorText : option string)
    (redirectCount : option Z) (finalUrl : option string) : outcome Z :=
  try_catch
    (let! hostname := new_URL url in
     let score := 0 in
     let! score := anchorPoints hostname anchorText score in
     let score := if isPunycode hostname then score + 10 else score in
     let score := if hasIPInHostname hostname then score + 12 else score in
     let tld := option_map (toLowerCase P) (pop (split_dot hostname)) in
     let score := if truthy_str tld && suspiciousTLDs_has (or_empty tld)
                  then score + 8 else score in
     let score := match redirectCount with
                  | Some n => if 3 <=? n then score + Z.min 12 (n * 3) else score
                  | None => score
                  end in
     let! score := finalUrlPoints hostname finalUrl score in
     Return score)
    (Return 0).

(** *** External signal clients *)

Definition callIPQS (w : World) (url : string) : option IpqsResult :=
  if negb (truthy_str (IPQS_API_KEY cfg)) then None
  else match ipqs_response w url with
       | Some data =>
           Some {| ipqs_score := match fraud_score data with
                                 | VUndefined => None
                                 | v => normalizeScore v
                                 end;
                   ipqs_flags := {| flag_malicious := truthy (d_malicious data);
                                    flag_phishing := truthy (d_phishing data);
                                    flag_malware := truthy (d_malware data);
                                    flag_suspicious := truthy (d_suspicious data) |} |}
       | None => None
       end.

Definition callStalkPhish (w : World) (url : string) : option StalkResult :=
  if negb (truthy_str (STALKPHISH_API_KEY cfg)) then None
  else match stalkphish_response w url with
       | Some data =>
           Some {| stalk_score := match riskScore data with
                                  | VUndefined => None
                                  | v => normalizeScore v
                                  end |}
       | None => None
       end.

(** [finalUrl] is [responseUrl || path || null] and [redirectCount] is
    [_redirectCount || 0]; the [catch] gives [{ finalUrl: null,
    redirectCount: 0 }]. *)
Definition getRedirectInfo (w : World) (url : string) : RedirectInfo :=
  match http_response w url with
  | Some r =>
      {| finalUrl := or_else (responseUrl r) (or_else (request_path r) None);
         redirectCount := match redirect_hops r with
                          | Some n => if n =? 0 then 0 else n
                          | None => 0
                          end |}
  | None => {| finalUrl := None; redirectCount := 0 |}
  end.

(** [txts.some(rec => rec.join('').toLowerCase().startsWith(prefix))] with
    the [catch (e) {}] around the lookup. *)
Definition txt_some (w : World) (name prefix : string) : bool :=
  match dns_txt w name with
  | Some txts =>
      existsb (fun rec => startsWith (toLowerCase P (join_empty rec)) prefix) txts
  | None => false
  end.

Definition checkDomainAuth (w : World) (domain : string) : DomainAuth :=
  {| spf := txt_some w domain "v=spf1";
     dmarc := txt_some w ("_dmarc." ++ domain) "v=dmarc1" |}.

(** *** The cache ([node-cache] with [stdTTL = CACHE_TTL_SECONDS]) *)

(** [cache.get(key)] at instant [t]: an entry past its expiry reads as a
    miss.  (The library also deletes it then; no later read can tell.) *)
Definition cache_get (t : Z) (c : gmap string Entry) (key : string)
  : option ScanResult :=
  match c !! key with
  | Some e =>
      if (e_expires e =? 0) || (t <=? e_expires e) then Some (e_value e) else None
  | None => None
  end.

(** [cache.set(key, value)] at instant [t], with the standard TTL. *)
Definition cache_set (t : Z) (key : string) (v : ScanResult)
    (c : gmap string Entry) : gmap string Entry :=
  <[key := {| e_value := v;
              e_expires := if CACHE_TTL_SECONDS cfg =? 0 then 0
                           else t + CACHE_TTL_SECONDS cfg * 1000 |}]> c.

(** *** The aggregator *)

Definition cacheKey (target : ScanTarget) : string :=
  "scan::" ++ url target ++ "::" ++ or_empty (anchorText target)
           ++ "::" ++ or_empty (senderDomain target).

(** The two [if (... !== null)] accumulations: [(weightedSum, totalWeight)]. *)
Definition weighted (ipqsScore stalkScore : option number) : number * number :=
  let acc := (ofZ 0, ofZ 0) in
  let acc := match ipqsScore with
             | Some s => (add (fst acc) (mul s WEIGHTS.ipqs), add (snd acc) WEIGHTS.ipqs)
             | None => acc
             end in
  match stalkScore with
  | Some s => (add (fst acc) (mul s WEIGHTS.stalkphish), add (snd acc) WEIGHTS.stalkphish)
  | None => acc
  end.

Definition baseScore (ipqsScore stalkScore : option number) : number :=
  let '(weightedSum, totalWeight) := weighted ipqsScore stalkScore in
  if gt totalWeight (ofZ 0) then Math_round (div weightedSum totalWeight) else ofZ 50.

Definition authBonus (authR : DomainAuth) : Z :=
  (if spf authR then -6 else 6) + (if dmarc authR then -4 else 4).

Definition finalRaw (ipqsScore stalkScore : option number) (heurScoreRaw : Z)
    (authR : DomainAuth) : number :=
  let heuristicsContribution := Math_min (ofZ 30) (ofZ heurScoreRaw) in
  Math_max (ofZ 0)
    (Math_min (ofZ 100)
       (add (add (baseScore ipqsScore stalkScore) heuristicsContribution)
            (ofZ (authBonus authR)))).

(** [ipqsR?.flags?.malicious || ipqsR?.flags?.phishing] as a condition. *)
Definition explicitMalicious (ipqsR : option IpqsResult) : bool :=
  match ipqsR with
  | Some r => flag_malicious (ipqs_flags r) || flag_phishing (ipqs_flags r)
  | None => false
  end.

Definition urlVerdict (finalScore : number) : Verdict :=
  if ge finalScore (ofZ 70) then malicious
  else if ge finalScore (ofZ 40) then suspicious
  else safe.

(** [aggregateSignals] after its four lookups have settled: lines 188-209
    of the source. *)
Definition scoreSignals (target : ScanTarget) (ipqsR : option IpqsResult)
    (stalkR : option StalkResult) (redirectR : RedirectInfo) (authR : DomainAuth)
  : outcome ScanResult :=
  let ipqsScore := match ipqsR with Some r => ipqs_score r | None => None end in
  let stalkScore := match stalkR with Some r => stalk_score r | None => None end in
  let! heurScoreRaw := heuristicsScore (url target) (anchorText target)
                         (Some (redirectCount redirectR)) (finalUrl redirectR) in
  let raw := finalRaw ipqsScore stalkScore heurScoreRaw authR in
  let finalScore := if explicitMalicious ipqsR then Math_max raw (ofZ 85) else raw in
  Return {| r_url := url target;
            r_verdict := urlVerdict finalScore;
            r_score := finalScore;
            r_breakdown := EmptyBreakdown;
            r_cached := None |}.

(** [{ ...cached, cached: true }] *)
Definition markCached (cached : ScanResult) : ScanResult :=
  {| r_url := r_url cached; r_verdict := r_verdict cached;
     r_score := r_score cached; r_breakdown := r_breakdown cached;
     r_cached := Some true |}.

(** The lookups of [Promise.all], in the order the source starts them. *)
Definition lookups (target : ScanTarget) : list Call :=
  [CallIPQS (url target); CallStalkPhish (url target); GetRedirectInfo (url target)]
  ++ (if truthy_str (senderDomain target)
      then [CheckDomainAuth (or_empty (senderDomain target))] else []).

(** One call of [aggregateSignals].  The cache is read before the first
    [await] and written after the last, so a call that runs beside others
    reads the cache [seen] as it stood when it began and leaves its effects
    on the current state [st]. *)
Definition aggregateSignalsAt (w : World) (seen : gmap string Entry) (st : Server)
    (target : ScanTarget) : outcome ScanResult * Server :=
  match cache_get (now w) seen (cacheKey target) with
  | Some cached => (Return (markCached cached), st)
  | None =>
      let ipqsR := callIPQS w (url target) in
      let stalkR := callStalkPhish w (url target) in
      let redirectR := getRedirectInfo w (url target) in
      let authR := if truthy_str (senderDomain target)
                   then checkDomainAuth w (or_empty (senderDomain target))
                   else {| spf := false; dmarc := false |} in
      let issued := calls st ++ lookups target in
      match scoreSignals target ipqsR stalkR redirectR authR with
      | Return result =>
          (Return result,
           {| cache := cache_set (settled w) (cacheKey target) result (cache st);
              calls := issued |})
      | Throw => (Throw, {| cache := cache st; calls := issued |})
      end
  end.

(** A call that runs alone, as under [POST /scan]. *)
Definition aggregateSignals (w : World) (st : Server) (target : ScanTarget)
  : outcome ScanResult * Server :=
  aggregateSignalsAt w (cache st) st target.

(** ** Section 2 of the source: email analysis *)

(** One [if (includes pass) ... else if (includes fail) ...] step. *)
Definition authStep (lowerHeaders passMark failMark : string) (passDelta failDelta : Z)
    (score : Z) : Z * AuthMark :=
  if includes lowerHeaders passMark then (score - passDelta, pass)
  else if includes lowerHeaders failMark then (score + failDelta, fail)
  else (score, neutral).

Definition analyzeHeaders (headersText : option string) : Z * HeaderReport :=
  if negb (truthy_str headersText) then
    (10, {| rep_spf := neutral; rep_dkim := neutral; rep_dmarc := neutral;
            mismatch_from_return := false |})
  else
    let lowerHeaders := toLowerCase P (or_empty headersText) in
    let score := 0 in
    let '(score, m_spf) := authStep lowerHeaders "spf=pass" "spf=fail" 15 25 score in
    let '(score, m_dkim) := authStep lowerHeaders "dkim=pass" "dkim=fail" 10 20 score in
    let '(score, m_dmarc) := authStep lowerHeaders "dmarc=pass" "dmarc=fail" 5 25 score in
    let mismatch :=
      match match_from P lowerHeaders, match_return_path P lowerHeaders with
      | Some fromAddr, Some returnAddr => negb (String.eqb fromAddr returnAddr)
      | _, _ => false
      end in
    let score := if mismatch then score + 20 else score in
    (Z.max 0 score,
     {| rep_spf := m_spf; rep_dkim := m_dkim; rep_dmarc := m_dmarc;
        mismatch_from_return := mismatch |}).

Definition urgencyKeywords : list string :=
  ["urgent"; "action required"; "account suspended"; "verify your account";
   "password expired"; "unusual activity"; "security alert";
   "confirm your identity"]%string.

Definition analyzeBody (bodyText : option string) : Z * list string :=
  if negb (truthy_str bodyText) then (0, [])
  else
    let lowerBody := toLowerCase P (or_empty bodyText) in
    fold_left
      (fun acc keyword =>
         if includes lowerBody keyword then (fst acc + 8, snd acc ++ [keyword])
         else acc)
      urgencyKeywords (0, []).

(** ** Section 3 of the source: endpoints *)

(** [(links || []).map(link => aggregateSignals(...))]: every call reads
    the cache before any of them writes it.  The writes are applied in list
    order here; the source leaves their order to the event loop. *)
Definition scanLinks (w : World) (st : Server) (ls : list Link)
  : list (outcome ScanResult) * Server :=
  fold_left
    (fun acc link =>
       let '(r, st') :=
         aggregateSignalsAt w (cache st) (snd acc)
           {| url := href link; anchorText := link_anchorText link;
              senderDomain := None |} in
       (fst acc ++ [r], st'))
    ls ([], st).

(** [await Promise.all(promises)]: rejects when one of them rejects. *)
Fixpoint Promise_all {A} (outcomes : list (outcome A)) : outcome (list A) :=
  match outcomes with
  | [] => Return []
  | o :: rest =>
      let! a := o in
      let! others := Promise_all rest in
      Return (a :: others)
  end.

(** The [for (const result of linkResults)] loop: one step and the loop. *)
Definition pickHigher (acc : LinkAnalysis) (result : ScanResult) : LinkAnalysis :=
  if gt (r_score result) (highestLinkScore acc)
  then {| highestLinkScore := r_score result;
          mostMaliciousLink := Some (r_url result, r_score result) |}
  else acc.

Definition worstLink (linkResults : list ScanResult) : LinkAnalysis :=
  fold_left pickHigher linkResults
    {| highestLinkScore := ofZ 0; mostMaliciousLink := None |}.

(** [Math.round(Math.min(100, h * 0.4 + b * 0.2 + l * 0.4))] *)
Definition emailScore (headerScore bodyScore : Z) (highest : number) : number :=
  let finalScore :=
    add (add (mul (ofZ headerScore) (Num (2 # 5))) (mul (ofZ bodyScore) (Num (1 # 5))))
        (mul highest (Num (2 # 5))) in
  Math_round (Math_min (ofZ 100) finalScore).

Definition emailVerdict (normalizedScore : number) : Verdict :=
  if ge normalizedScore MALICIOUS_THRESHOLD then malicious
  else if ge normalizedScore SUSPICIOUS_THRESHOLD then suspicious
  else safe.

Definition post_scan_email (w : World) (st : Server) (req : EmailRequest)
  : Response * Server :=
  if negb (truthy_str (body req)) then
    ({| status := 400; json := ErrorBody None "missing email body" |}, st)
  else
    let headerA := analyzeHeaders (headers req) in
    let bodyA := analyzeBody (body req) in
    let '(promises, st') :=
      scanLinks w st (match links req with Some ls => ls | None => [] end) in
    match Promise_all promises with
    | Return linkResults =>
        let worst := worstLink linkResults in
        let normalizedScore :=
          emailScore (fst headerA) (fst bodyA) (highestLinkScore worst) in
        ({| status := 200;
            json := EmailBody true (emailVerdict normalizedScore) normalizedScore
                      {| headerAnalysis := snd headerA;
                         bodyAnalysis_keywords := snd bodyA;
                         linkAnalysis := worst;
                         breakdown_finalScore := normalizedScore |} |}, st')
    | Throw =>
        ({| status := 500; json := ErrorBody (Some false) "email_scan_failed" |}, st')
    end.

(** The argument [{ url, anchorText, senderDomain }] of the handler's call. *)
Definition scanTarget (req : ScanRequest) : ScanTarget :=
  {| url := or_empty (req_url req); anchorText := req_anchorText req;
     senderDomain := req_senderDomain req |}.

Definition post_scan (w : World) (st : Server) (req : ScanRequest)
  : Response * Server :=
  if negb (truthy_str (req_url req)) then
    ({| status := 400; json := ErrorBody None "missing url" |}, st)
  else
    match aggregateSignals w st (scanTarget req) with
    | (Return aggregated, st') =>
        ({| status := 200; json := ScanBody true aggregated |}, st')
    | (Throw, st') =>
        ({| status := 500; json := ErrorBody (Some false) "scan_failed" |}, st')
    end.

(** The same call made again and again, each time in the world of its
    own moment. *)
Fixpoint repeatScan (ws : list World) (st : Server) (target : ScanTarget)
  : list (outcome ScanResult) * Server :=
  match ws with
  | [] => ([], st)
  | w :: later =>
      let '(r, st') := aggregateSignals w st target in
      let '(rs, st'') := repeatScan later st' target in
      (r :: rs, st'')
  end.

(** A score as the data model has it: an integer from 0 to 100. *)
Definition isScore (n : number) : Prop :=
  match n with
  | Num q => exists z : Z, (0 <= z <= 100)%Z /\ Qeq q (inject_Z z)
  | _ => False
  end.

(** A source score as [callIPQS] and [callStalkPhish] can produce it. *)
Definition sourceScore (s : option number) : Prop :=
  match s with
  | None | Some NaN | Some (Num _) => True
  | Some _ => False
  end.

(** The running highest link score never leaves the non-negative numbers. *)
Definition atLeastZero (n : number) : Prop :=
  match n with
  | Num q => (0 <= q)%Q
  | PInf => True
  | _ => False
  end.

(** The identity the specification gives a scan target: its three fields,
    an absent one read as the empty string. *)
Definition triple (target : ScanTarget) : string * string * string :=
  (url target, or_empty (anchorText target), or_empty (senderDomain target)).

(** A source score that can be read: absent, or a rational. *)
Definition readable (s : option number) : Prop :=
  match s with
  | None | Some (Num _) => True
  | Some _ => False
  end.


(** Every character of [s] satisfies [p]. *)
Fixpoint every (p : ascii -> bool) (s : string) : bool :=
  match s with
  | EmptyString => true
  | String c rest => p c && every p rest
  end.

Definition is_dot (c : ascii) : bool := Ascii.eqb c "."%char.

(** [segs.join('.')] *)
Fixpoint join_dot (segs : list string) : string :=
  match segs with
  | [] => EmptyString
  | [seg] => seg
  | seg :: rest => seg ++ String "."%char (join_dot rest)
  end.


(** What every result the aggregator computes satisfies: the verdict is
    the one its score maps to, and the score is an integer from 0 to 100
    or [NaN]. *)
Definition soundScore (r : ScanResult) : Prop :=
  r_verdict r = urlVerdict (r_score r) /\ (r_score r = NaN \/ isScore (r_score r)).

(** A stored result: sound, and without the [cached] key. *)
Definition soundResult (r : ScanResult) : Prop :=
  r_cached r = None /\ soundScore r.

(** Every entry of the cache holds a sound result. *)
Definition cacheSound (c : gmap string Entry) : Prop :=
  forall key e, c !! key = Some e -> soundResult (e_value e).


(** The points a header report stands for: each mark's offset, 20 for a
    mismatch, floored at 0. *)
Definition markPoints (m : AuthMark) (passDelta failDelta : Z) : Z :=
  match m with
  | pass => - passDelta
  | fail => failDelta
  | neutral => 0
  end.

Definition reportPoints (report : HeaderReport) : Z :=
  Z.max 0 (markPoints (rep_spf report) 15 25 + markPoints (rep_dkim report) 10 20
           + markPoints (rep_dmarc report) 5 25
           + (if mismatch_from_return report then 20 else 0)).


(** What the loop over the link results has established after the
    results [rs]: either no result scored above 0, or the link kept is the
    first one whose score no other result exceeds. *)
Definition firstHighest (rs : list ScanResult) (a : LinkAnalysis) : Prop :=
  match mostMaliciousLink a with
  | None =>
      highestLinkScore a = ofZ 0 /\ Forall (fun r => gt (r_score r) (ofZ 0) = false) rs
  | Some (u, s) =>
      highestLinkScore a = s /\ gt s (ofZ 0) = true /\
      exists pre r post,
        rs = pre ++ r :: post /\ r_url r = u /\ r_score r = s /\
        Forall (fun x => ge (r_score x) s = false) pre /\
        Forall (fun x => gt (r_score x) s = false) post
  end.


(** ** The extension's message listener (lines 1-37 of the source) *)

(** [s.slice(n)] *)
Fixpoint skip (n : nat) (s : string) : string :=
  match n, s with
  | O, _ => s
  | S n', String _ rest => skip n' rest
  | S _, EmptyString => EmptyString
  end.

(** [s.replace(pat, '')] for a non-empty string pattern: the first
    occurrence of [pat] is removed. *)
Fixpoint remove_first (pat s : string) : string :=
  if String.prefix pat s then skip (String.length pat) s
  else match s with
       | EmptyString => EmptyString
       | String c rest => String c (remove_first pat rest)
       end.

(** [data.backendUrl || 'http://localhost:8080/scan'] *)
Definition backendUrl_or_default (stored : option string) : string :=
  if truthy_str stored then or_empty stored else "http://localhost:8080/scan".

(** The URL a [scan_url] message is posted to. *)
Definition scanEndpoint (stored : option string) : string :=
  backendUrl_or_default stored.

(** The URL a [scan_email] message is posted to:
    [`${(data.backendUrl || default).replace('/scan', '')}/scan-email`]. *)
Definition emailEndpoint (stored : option string) : string :=
  remove_first "/scan" (backendUrl_or_default stored) ++ "/scan-email".

(** ** [POST /feedback] *)

(** [req.body] of [POST /feedback]. *)
Record FeedbackRequest : Type := {
  fb_url : option string;
  fb_verdict : option string;
  fb_comment : option string
}.

(** The entry written: [{ ts, url, verdict, comment }]. *)
Record FeedbackEntry : Type := {
  entry_ts : string;
  entry_url : string;
  entry_verdict : string;
  entry_comment : string
}.

(** The object handed to [res.json]: [{ ok: true }], [{ error }] or
    [{ ok: false, error }]. *)
Inductive FeedbackBody : Type :=
  | FeedbackOk
  | FeedbackError (ok : option bool) (error : string).

Record FeedbackResponse : Type := {
  fb_status : Z;
  fb_json : FeedbackBody
}.

(** Where the handler stands at its [await]: it has answered, or it waits
    for [fs.appendFile(feedbackPath, data, 'utf8')]. *)
Inductive Awaited : Type :=
  | Responded (resp : FeedbackResponse)
  | AppendFile (data : string).

(** [s.slice(0, n)] *)
Fixpoint keep (n : nat) (s : string) : string :=
  match n, s with
  | S n', String c rest => String c (keep n' rest)
  | _, _ => EmptyString
  end.

(** One request in the server: its append has [rest] still to write, or
    the request has been answered. *)
Inductive Handler : Type :=
  | Appending (rest : string)
  | Answered (resp : FeedbackResponse).

(** The file [feedback.json], the requests in order of arrival, and the
    pieces appended to the file so far, each with the request whose append
    wrote it. *)
Record FeedbackServer : Type := {
  feedback_json : string;
  handlers : list Handler;
  appended : list (nat * string)
}.

(** What can happen next.  [fs.appendFile] opens the file for appending,
    writes the data in one or more pieces, each put at the end of the file
    as it then stands, and closes it; it resolves once everything is
    written and closed, and rejects when any of these steps fails.  The
    appends of requests that overlap take their turns in any order. *)
Inductive Event : Type :=
  | Arrives (iso_time : string) (req : FeedbackRequest)
  | Writes (id : nat) (n : nat)
  | Resolves (id : nat)
  | Rejects (id : nat).

(** The requests of a schedule, in order of arrival, each with what
    [new Date().toISOString()] gave it. *)
Fixpoint arrivals (events : list Event) : list (string * FeedbackRequest) :=
  match events with
  | [] => []
  | Arrives iso_time req :: later => (iso_time, req) :: arrivals later
  | _ :: later => arrivals later
  end.

(** What the append of request [id] has put in the file. *)
Fixpoint written_by (id : nat) (pieces : list (nat * string)) : string :=
  match pieces with
  | [] => EmptyString
  | (i, piece) :: later =>
      if Nat.eqb i id then (piece ++ written_by id later)%string
      else written_by id later
  end.

Section Feedback.

(** [JSON.stringify(entry)] *)
Context (JSON_stringify : FeedbackEntry -> string).

(** The entry the handler builds from a request that passed validation. *)
Definition feedbackEntry (iso_time : string) (req : FeedbackRequest) : FeedbackEntry :=
  {| entry_ts := iso_time; entry_url := or_empty (fb_url req);
     entry_verdict := or_empty (fb_verdict req);
     entry_comment := or_empty (fb_comment req) |}.

(** [JSON.stringify(entry) + '\n'] *)
Definition feedbackLine (entry : FeedbackEntry) : string :=
  (JSON_stringify entry ++ String "010"%char EmptyString)%string.

(** The handler up to its [await]. *)
Definition post_feedback (iso_time : string) (req : FeedbackRequest) : Awaited :=
  if negb (truthy_str (fb_url req)) || negb (truthy_str (fb_verdict req)) then
    Responded {| fb_status := 400; fb_json := FeedbackError None "missing url or verdict" |}
  else
    AppendFile (feedbackLine (feedbackEntry iso_time req)).

(** The handler from its [await] on: [res.json({ ok: true })] when the
    append resolved, the [catch] block when it rejected. *)
Definition post_feedback_settled (resolved : bool) : FeedbackResponse :=
  if resolved then {| fb_status := 200; fb_json := FeedbackOk |}
  else {| fb_status := 500; fb_json := FeedbackError (Some false) "feedback_failed" |}.

(** One event; [None] when it cannot happen in the state: a write or a
    settlement for a request that is not waiting for its append, or a
    resolution before everything is written. *)
Definition feedbackStep (ev : Event) (st : FeedbackServer) : option FeedbackServer :=
  match ev with
  | Arrives iso_time req =>
      Some {| feedback_json := feedback_json st;
              handlers := handlers st
                          ++ [match post_feedback iso_time req with
                              | Responded resp => Answered resp
                              | AppendFile data => Appending data
                              end];
              appended := appended st |}
  | Writes id n =>
      match handlers st !! id with
      | Some (Appending rest) =>
          Some {| feedback_json := (feedback_json st ++ keep n rest)%string;
                  handlers := <[id := Appending (skip n rest)]> (handlers st);
                  appended := appended st ++ [(id, keep n rest)] |}
      | _ => None
      end
  | Resolves id =>
      match handlers st !! id with
      | Some (Appending EmptyString) =>
          Some {| feedback_json := feedback_json st;
                  handlers := <[id := Answered (post_feedback_settled true)]> (handlers st);
                  appended := appended st |}
      | _ => None
      end
  | Rejects id =>
      match handlers st !! id with
      | Some (Appending _) =>
          Some {| feedback_json := feedback_json st;
                  handlers := <[id := Answered (post_feedback_settled false)]> (handlers st);
                  appended := appended st |}
      | _ => None
      end
  end.

(** A schedule of events, from the state [st]. *)
Fixpoint feedbackRun (events : list Event) (st : FeedbackServer) : option FeedbackServer :=
  match events with
  | [] => Some st
  | ev :: later =>
      match feedbackStep ev st with
      | Some st' => feedbackRun later st'
      | None => None
      end
  end.

(** What holds of request [id], which arrived at [iso_time] as [req], when
    its append has written [written] and its handler stands at [h]. *)
Definition handled (iso_time : string) (req : FeedbackRequest) (written : string)
    (h : Handler) : Prop :=
  let line := feedbackLine (feedbackEntry iso_time req) in
  if truthy_str (fb_url req) && truthy_str (fb_verdict req) then
    match h with
    | Appending rest => (written ++ rest)%string = line
    | Answered resp =>
        (resp = {| fb_status := 200; fb_json := FeedbackOk |} /\ written = line)
        \/ (resp = {| fb_status := 500;
                      fb_json := FeedbackError (Some false) "feedback_failed" |}
            /\ exists rest, (written ++ rest)%string = line)
    end
  else
    h = Answered {| fb_status := 400;
                    fb_json := FeedbackError None "missing url or verdict" |}
    /\ written = EmptyString.

(** What every reachable state satisfies, for the requests [arr] that
    have arrived and the file [file] found at the start. *)
Definition feedbackInv (arr : list (string * FeedbackRequest)) (file : string)
    (st : FeedbackServer) : Prop :=
  feedback_json st = (file ++ join_empty (map snd (appended st)))%string /\
  length (handlers st) = length arr /\
  (forall id, (length arr <= id)%nat -> written_by id (appended st) = EmptyString) /\
  (forall id iso_time req h,
     arr !! id = Some (iso_time, req) -> handlers st !! id = Some h ->
     handled iso_time req (written_by id (appended st)) h).

End Feedback.

(** The server before any request: the file as it is found. *)
Definition feedbackStart (file : string) : FeedbackServer :=
  {| feedback_json := file; handlers := []; appended := [] |}.


(** [JSON.stringify] on a string that needs no escaping, and on an entry
    whose fields are such strings. *)
Definition quoted (s : string) : string :=
  String "034"%char (s ++ String "034"%char EmptyString).

Definition stringify_plain (entry : FeedbackEntry) : string :=
  ("{" ++ quoted "ts" ++ ":" ++ quoted (entry_ts entry)
   ++ "," ++ quoted "url" ++ ":" ++ quoted (entry_url entry)
   ++ "," ++ quoted "verdict" ++ ":" ++ quoted (entry_verdict entry)
   ++ "," ++ quoted "comment" ++ ":" ++ quoted (entry_comment entry) ++ "}")%string.

(** Four requests.  The first two overlap: the second writes its whole
    line and resolves between two pieces of the first, whose append then
    fails.  The third has no [url].  The append of the fourth fails before
    it has written anything. *)
Definition overlapping_feedback : list Event :=
  [Arrives "2024-05-01T10:00:00.000Z"
     {| fb_url := Some "http://example.com/login"%string;
        fb_verdict := Some "safe"%string; fb_comment := None |};
   Arrives "2024-05-01T10:00:00.001Z"
     {| fb_url := Some "http://b.example/"%string;
        fb_verdict := Some "malicious"%string; fb_comment := Some "phish"%string |};
   Writes 0 10;
   Writes 1 200;
   Arrives "2024-05-01T10:00:00.002Z"
     {| fb_url := None; fb_verdict := Some "safe"%string; fb_comment := None |};
   Resolves 1;
   Writes 0 5;
   Rejects 0;
   Arrives "2024-05-01T10:00:00.003Z"
     {| fb_url := Some "http://c.example/"%string;
        fb_verdict := Some "safe"%string; fb_comment := Some ""%string |};
   Rejects 3].


(** Source scores compared: both absent, or both present and ordered. *)
Definition sourceLe (x y : option Z) : Prop :=
  match x, y with
  | Some a, Some b => a <= b
  | None, None => True
  | _, _ => False
  end.


(** Settles a test on closed numbers by evaluation. *)
Ltac decide_closed_test :=
  match goal with
  | |- context [if ?c then _ else _] =>
      first [change c with true | change c with false]; cbv iota
  end.

(** ** Properties *)

(** *** Numbers *)

Lemma Qltb_true (x y : Q) : Qltb x y = true <-> (x < y)%Q.
Proof.
  unfold Qltb. rewrite negb_true_iff, <- not_true_iff_false, Qle_bool_iff.
  split; [apply Qnot_le_lt | apply Qlt_not_le].
Qed.

Lemma Qltb_false (x y : Q) : Qltb x y = false <-> (y <= x)%Q.
Proof. unfold Qltb. rewrite negb_false_iff. apply Qle_bool_iff. Qed.

Lemma ge_ofZ (z k : Z) : ge (ofZ z) (ofZ k) = (k <=? z).
Proof.
  unfold ge, le, ofZ, Qle_bool, inject_Z. simpl. now rewrite !Z.mul_1_r.
Qed.

Lemma gt_ofZ (z k : Z) : gt (ofZ z) (ofZ k) = (k <? z).
Proof.
  unfold gt, lt, ofZ, Qltb, Qle_bool, inject_Z. simpl.
  rewrite !Z.mul_1_r. symmetry. apply Z.ltb_antisym.
Qed.

(** *** Verdict thresholds *)


(** The verdict of a computed URL result is [urlVerdict] of its score. *)
Lemma scoreSignals_verdict target ipqsR stalkR redirectR authR r :
  scoreSignals target ipqsR stalkR redirectR authR = Return r ->
  r_verdict r = urlVerdict (r_score r) /\ r_url r = url target /\ r_cached r = None.
Proof.
  unfold scoreSignals. destruct (heuristicsScore _ _ _ _); simpl; [|discriminate].
  intros [= <-]. simpl. auto.
Qed.

(** *** The heuristic extractor *)

Lemma anchorPoints_returns hostname anchorText score :
  exists n, anchorPoints hostname anchorText score = Return n /\ score <= n.
Proof.
  unfold anchorPoints, new_URL.
  destruct (truthy_str anchorText); [|exists score; split; [reflexivity | lia]].
  destruct (match_host_token P _) as [m0|]; [|exists score; split; [reflexivity | lia]].
  destruct (startsWith m0 "http"); [destruct (URL_hostname P m0) as [h|]|]; simpl;
    repeat match goal with |- context [if ?b then _ else _] => destruct b end;
    eexists; (split; [reflexivity | lia]).
Qed.

Lemma finalUrlPoints_returns hostname finalUrl score :
  exists n, finalUrlPoints hostname finalUrl score = Return n /\ score <= n.
Proof.
  unfold finalUrlPoints, new_URL.
  destruct (truthy_str finalUrl); [|exists score; split; [reflexivity | lia]].
  destruct (URL_hostname P _) as [h|]; simpl;
    repeat match goal with |- context [if ?b then _ else _] => destruct b end;
    eexists; (split; [reflexivity | lia]).
Qed.

Lemma heuristicsScore_returns url anchorText redirectCount finalUrl :
  exists n, heuristicsScore url anchorText redirectCount finalUrl = Return n /\ 0 <= n.
Proof.
  unfold heuristicsScore, new_URL.
  destruct (URL_hostname P url) as [hostname|]; simpl;
    [|exists 0; split; [reflexivity | lia]].
  destruct (anchorPoints_returns hostname anchorText 0) as (a & -> & Ha). simpl.
  match goal with |- context [finalUrlPoints hostname finalUrl ?s] =>
    destruct (finalUrlPoints_returns hostname finalUrl s) as (n & -> & Hn);
    assert (0 <= s)
  end.
  { repeat match goal with |- context [if ?b then _ else _] => destruct b end;
      destruct redirectCount as [k|];
      repeat match goal with |- context [if ?b then _ else _] =>
        destruct b eqn:? end; lia. }
  simpl. exists n. split; [reflexivity | lia].
Qed.

(** C9. [heuristicsScore] returns, on every input, a non-negative integer
    and never throws; a malformed [url] gives 0; a malformed URL token in
    the anchor text, and a malformed [finalUrl], are ignored: the result is
    the one computed without the anchor text, respectively without the
    final URL. *)
Theorem heuristicsScore_total url anchorText redirectCount finalUrl :
  (exists n, heuristicsScore url anchorText redirectCount finalUrl = Return n /\ 0 <= n) /\
  (URL_hostname P url = None ->
   heuristicsScore url anchorText redirectCount finalUrl = Return 0) /\
  (forall a m0, anchorText = Some a -> match_host_token P a = Some m0 ->
     startsWith m0 "http" = true -> URL_hostname P m0 = None ->
     heuristicsScore url anchorText redirectCount finalUrl
     = heuristicsScore url None redirectCount finalUrl) /\
  (forall f, finalUrl = Some f -> URL_hostname P f = None ->
     heuristicsScore url anchorText redirectCount finalUrl
     = heuristicsScore url anchorText redirectCount None).
Proof.
  split; [apply heuristicsScore_returns|]. split; [|split].
  - intros H. unfold heuristicsScore, new_URL. now rewrite H.
  - intros a m0 -> Hm Hs Hu. unfold heuristicsScore.
    destruct (new_URL url) as [hostname|]; simpl; [|reflexivity].
    unfold anchorPoints, new_URL. simpl. rewrite Hm, Hs, Hu. simpl.
    now destruct (negb (a =? ""))%string.
  - intros f -> Hu. unfold heuristicsScore.
    destruct (new_URL url) as [hostname|]; simpl; [|reflexivity].
    destruct (anchorPoints hostname anchorText 0); simpl; [|reflexivity].
    unfold finalUrlPoints, new_URL. simpl. rewrite Hu. simpl.
    now destruct (negb (f =? ""))%string.
Qed.

(** *** Input validation of [POST /scan-email] *)

(** C10. A request whose [body] is missing or empty is answered 400 with
    the fixed error object, whatever its headers and links are, and leaves
    the server as it was: no lookup is issued and the cache is not written. *)
Theorem scan_email_without_body (w : World) (st : Server) (req : EmailRequest) :
  body req = None \/ body req = Some ""%string ->
  post_scan_email w st req
  = ({| status := 400; json := ErrorBody None "missing email body" |}, st).
Proof.
  intros [H | H]; unfold post_scan_email; now rewrite H.
Qed.

(** *** The fingerprint *)

Lemma string_app_assoc (a b c : string) : ((a ++ b) ++ c = a ++ (b ++ c))%string.
Proof.
  induction a as [|x a IH]; [reflexivity|].
  change (String x ((a ++ b) ++ c) = String x (a ++ (b ++ c)))%string. now rewrite IH.
Qed.

Lemma string_app_nil (s : string) : (s ++ "")%string = s.
Proof.
  induction s as [|x s IH]; [reflexivity|].
  change (String x (s ++ "") = String x s)%string. now rewrite IH.
Qed.

Lemma string_length_app (a b : string) :
  String.length (a ++ b) = (String.length a + String.length b)%nat.
Proof.
  induction a as [|x a IH]; [reflexivity|].
  change (S (String.length (a ++ b)) = S (String.length a + String.length b)).
  now rewrite IH.
Qed.

Lemma append_inv_head (u x y : string) : (u ++ x = u ++ y)%string -> x = y.
Proof. induction u as [|c u IH]; simpl; [auto | intros [= H]; auto]. Qed.

Lemma includes_colon_cons (c : ascii) (r : string) :
  includes (String c r) ":" = false -> c <> ":"%char /\ includes r ":" = false.
Proof.
  simpl. intros H. apply orb_false_iff in H as [H1 H2]. split; [|exact H2].
  intros ->. simpl in H1. destruct r; discriminate.
Qed.

Lemma split_at_colon (a a' r r' : string) :
  includes a ":" = false -> includes a' ":" = false ->
  (a ++ String ":" r = a' ++ String ":" r')%string -> a = a' /\ r = r'.
Proof.
  revert a'. induction a as [|c a IH]; intros [|c' a'] Ha Ha' E; simpl in E.
  - injection E as ->. auto.
  - injection E as <- _. apply includes_colon_cons in Ha' as [Hc _]. now destruct Hc.
  - injection E as -> _. apply includes_colon_cons in Ha as [Hc _]. now destruct Hc.
  - injection E as -> E.
    apply includes_colon_cons in Ha as [_ Ha]. apply includes_colon_cons in Ha' as [_ Ha'].
    destruct (IH a' Ha Ha' E) as [-> ->]. auto.
Qed.

Lemma includes_colon_app (p s : string) : includes (p ++ String ":" s) ":" = true.
Proof.
  induction p as [|c p IH].
  - change (includes (String ":" s) ":" = true). simpl. now destruct s.
  - change (includes (String c (p ++ String ":" s)) ":" = true).
    cbn [includes]. rewrite IH. apply orb_true_r.
Qed.

(** A string is cut at its last colon in one way only. *)
Lemma split_at_last_colon (p p' s s' : string) :
  includes s ":" = false -> includes s' ":" = false ->
  (p ++ String ":" s = p' ++ String ":" s')%string -> p = p' /\ s = s'.
Proof.
  intros Hs Hs'. revert p'. induction p as [|c p IH]; intros [|c' p'] E.
  - change (String ":" s = String ":" s') in E. injection E as ->. auto.
  - change (String ":" s = String c' (p' ++ String ":" s')) in E.
    injection E as _ E. rewrite E, includes_colon_app in Hs. discriminate.
  - change (String c (p ++ String ":" s) = String ":" s') in E.
    injection E as _ E. rewrite <- E, includes_colon_app in Hs'. discriminate.
  - change (String c (p ++ String ":" s) = String c' (p' ++ String ":" s')) in E.
    injection E as -> E. destruct (IH p' E) as [-> ->]. auto.
Qed.

Lemma fields_joined (u a s : string) :
  (u ++ "::" ++ a ++ "::" ++ s
   = (((u ++ ":") ++ String ":" a) ++ ":") ++ String ":" s)%string.
Proof. now rewrite !string_app_assoc. Qed.

(** Equal triples give equal fingerprints. *)
Lemma cacheKey_of_equal_triples (t1 t2 : ScanTarget) :
  triple t1 = triple t2 -> cacheKey t1 = cacheKey t2.
Proof. unfold triple, cacheKey. intros [= -> -> ->]. reflexivity. Qed.

(** Where no anchor text and no sender domain holds a colon the
    fingerprint is injective on triples, whatever the urls are: the two
    separators are then the last two places where a colon stands. *)
Lemma cacheKey_injective_without_colons (t1 t2 : ScanTarget) :
  includes (or_empty (anchorText t1)) ":" = false ->
  includes (or_empty (anchorText t2)) ":" = false ->
  includes (or_empty (senderDomain t1)) ":" = false ->
  includes (or_empty (senderDomain t2)) ":" = false ->
  cacheKey t1 = cacheKey t2 -> triple t1 = triple t2.
Proof.
  unfold triple, cacheKey. intros Ha1 Ha2 Hs1 Hs2 E.
  apply (append_inv_head "scan::") in E. rewrite !fields_joined in E.
  apply split_at_last_colon in E as [E ->]; auto.
  apply (split_at_last_colon _ _ "" "") in E as [E _]; auto.
  apply split_at_last_colon in E as [E ->]; auto.
  apply (split_at_last_colon _ _ "" "") in E as [-> _]; auto.
Qed.

(** So is it among targets with one url whose anchor texts hold no colon,
    whatever the sender domains are. *)
Lemma cacheKey_injective_same_url (t1 t2 : ScanTarget) :
  url t1 = url t2 ->
  includes (or_empty (anchorText t1)) ":" = false ->
  includes (or_empty (anchorText t2)) ":" = false ->
  cacheKey t1 = cacheKey t2 -> triple t1 = triple t2.
Proof.
  unfold triple, cacheKey. intros Hu H1 H2 E. rewrite Hu in *.
  apply (append_inv_head "scan::") in E. apply (append_inv_head (url t2)) in E.
  apply (append_inv_head "::") in E.
  apply split_at_colon in E as [-> E]; auto.
  apply (append_inv_head ":") in E. now rewrite E.
Qed.

Lemma app_separator_neq (u x : string) : u <> (u ++ "::" ++ x)%string.
Proof.
  induction u as [|c u IH]; [discriminate|].
  change (String c u <> String c (u ++ "::" ++ x))%string. intros [= E]. now apply IH.
Qed.

(** *** Absent signals *)

Lemma Qfloor_half (z : Z) (q : Q) :
  (q == inject_Z z + (1 # 2))%Q -> Qfloor q = z.
Proof.
  intros ->. unfold Qfloor, Qplus, inject_Z. cbn [Qnum Qden].
  change (Z.pos (1 * 2)) with 2.
  replace (z * 2 + 1 * 1) with (1 + z * 2) by lia.
  rewrite Z.div_add by lia. reflexivity.
Qed.

Lemma baseScore_ipqs_only (z : Z) : baseScore (Some (ofZ z)) None = ofZ z.
Proof.
  unfold baseScore, weighted. cbn [fst snd].
  unfold WEIGHTS.ipqs, WEIGHTS.stalkphish, ofZ, add, mul.
  match goal with |- (if ?c then _ else _) = _ => change c with true end.
  unfold div.
  match goal with |- context [Qeq_bool ?a ?b] => change (Qeq_bool a b) with false end.
  cbn [Math_round]. unfold ofZ. do 2 f_equal.
  apply Qfloor_half. field.
Qed.

Lemma baseScore_stalkphish_only (z : Z) : baseScore None (Some (ofZ z)) = ofZ z.
Proof.
  unfold baseScore, weighted. cbn [fst snd].
  unfold WEIGHTS.ipqs, WEIGHTS.stalkphish, ofZ, add, mul.
  match goal with |- (if ?c then _ else _) = _ => change c with true end.
  unfold div.
  match goal with |- context [Qeq_bool ?a ?b] => change (Qeq_bool a b) with false end.
  cbn [Math_round]. unfold ofZ. do 2 f_equal.
  apply Qfloor_half. field.
Qed.


(** *** Worst link wins *)



(** *** The cache *)

Lemma scoreSignals_returns target ipqsR stalkR redirectR authR :
  exists r, scoreSignals target ipqsR stalkR redirectR authR = Return r.
Proof.
  unfold scoreSignals.
  destruct (heuristicsScore_returns (url target) (anchorText target)
              (Some (redirectCount redirectR)) (finalUrl redirectR)) as (h & -> & _).
  simpl. eauto.
Qed.

(** A live entry is returned with the marker and nothing else happens. *)
Lemma aggregateSignals_hit w st target cached :
  cache_get (now w) (cache st) (cacheKey target) = Some cached ->
  aggregateSignals w st target = (Return (markCached cached), st).
Proof. intros H. unfold aggregateSignals, aggregateSignalsAt. now rewrite H. Qed.

(** Without a live entry the result is computed, stored and returned. *)
Lemma aggregateSignals_miss w st target :
  cache_get (now w) (cache st) (cacheKey target) = None ->
  exists r,
    r_cached r = None /\ r_url r = url target /\ r_verdict r = urlVerdict (r_score r) /\
    aggregateSignals w st target
    = (Return r, {| cache := cache_set (settled w) (cacheKey target) r (cache st);
                    calls := calls st ++ lookups target |}).
Proof.
  intros H. unfold aggregateSignals, aggregateSignalsAt. rewrite H.
  match goal with |- context [scoreSignals ?t ?a ?b ?c ?d] =>
    destruct (scoreSignals_returns t a b c d) as [r Hr];
    destruct (scoreSignals_verdict t a b c d r Hr) as (Hv & Hu & Hc)
  end.
  exists r. rewrite Hr. auto.
Qed.

Lemma cache_get_set (t0 t : Z) (key : string) (v : ScanResult) (c : gmap string Entry) :
  CACHE_TTL_SECONDS cfg = 0 \/ t <= t0 + CACHE_TTL_SECONDS cfg * 1000 ->
  cache_get t (cache_set t0 key v c) key = Some v.
Proof.
  intros H. unfold cache_get, cache_set. rewrite lookup_insert_eq. simpl.
  destruct (Z.eqb_spec (CACHE_TTL_SECONDS cfg) 0) as [E | E]; [reflexivity|].
  destruct H as [H | H]; [contradiction|].
  apply Z.leb_le in H. rewrite H. now rewrite orb_true_r.
Qed.

(** C4. After a call that computed a result [r], the cache holds [r]
    itself under the target's fingerprint, and every later identical call
    made while the entry is within its TTL returns the [url], [verdict],
    [score] and [breakdown] of [r] with [cached] set to [true], whatever
    the lookups would answer by then; every repeat returns that same
    object.  The repeats leave the server as it was: no lookup is issued
    and the cache is not written. *)
Theorem repeated_scan_served_from_cache (w0 : World) (st0 st1 : Server)
    (target : ScanTarget) (r : ScanResult) (ws : list World) :
  cache_get (now w0) (cache st0) (cacheKey target) = None ->
  aggregateSignals w0 st0 target = (Return r, st1) ->
  Forall (fun w => CACHE_TTL_SECONDS cfg = 0
                   \/ now w <= settled w0 + CACHE_TTL_SECONDS cfg * 1000) ws ->
  r_cached r = None /\
  (exists e, cache st1 !! cacheKey target = Some e /\ e_value e = r) /\
  calls st1 = calls st0 ++ lookups target /\
  repeatScan ws st1 target
  = (map (fun _ => Return {| r_url := r_url r; r_verdict := r_verdict r;
                             r_score := r_score r; r_breakdown := r_breakdown r;
                             r_cached := Some true |}) ws,
     st1).
Proof.
  intros Hmiss Hfirst Hws.
  destruct (aggregateSignals_miss w0 st0 target Hmiss) as (r' & Hc & _ & _ & E).
  rewrite E in Hfirst. injection Hfirst as -> <-. split; [exact Hc|].
  split; [|split; [reflexivity|]].
  - cbn [cache]. unfold cache_set. rewrite lookup_insert_eq. eauto.
  - induction Hws as [|w ws Hw _ IH]; [reflexivity|].
    cbn [repeatScan map]. rewrite (aggregateSignals_hit w _ target r).
    + rewrite IH. reflexivity.
    + cbn [cache]. now apply cache_get_set.
Qed.

(** C7. The fingerprint joins the three fields with ["::"] and escapes
    nothing, so targets with different triples can share it.  Whatever
    [u], [x], [a] and the sender domain are, the target with url [u] and
    anchor text [x::a] and the target with url [u::x] and anchor text [a]
    have different triples and the same fingerprint.  Then, after a scan of
    the first has computed a result, a scan of the second within the TTL is
    answered from the first's cache entry: it returns the first's [url],
    [verdict], [score] and [breakdown] with [cached: true], issues no
    lookup and leaves the server as it was. *)
Theorem cacheKey_not_injective (u x a : string) (s : option string) :
  let t1 := {| url := u; anchorText := Some (x ++ "::" ++ a)%string;
               senderDomain := s |} in
  let t2 := {| url := (u ++ "::" ++ x)%string; anchorText := Some a;
               senderDomain := s |} in
  triple t1 <> triple t2 /\
  cacheKey t1 = cacheKey t2 /\
  forall (w0 w : World) (st0 st1 : Server) (r : ScanResult),
    cache_get (now w0) (cache st0) (cacheKey t1) = None ->
    aggregateSignals w0 st0 t1 = (Return r, st1) ->
    CACHE_TTL_SECONDS cfg = 0 \/ now w <= settled w0 + CACHE_TTL_SECONDS cfg * 1000 ->
    r_url r = u /\
    aggregateSignals w st1 t2
    = (Return {| r_url := u; r_verdict := r_verdict r; r_score := r_score r;
                 r_breakdown := r_breakdown r; r_cached := Some true |},
       st1).
Proof.
  cbv zeta.
  assert (Hkey : cacheKey {| url := u; anchorText := Some (x ++ "::" ++ a)%string;
                             senderDomain := s |}
                 = cacheKey {| url := (u ++ "::" ++ x)%string; anchorText := Some a;
                               senderDomain := s |}).
  { unfold cacheKey. cbn [url anchorText senderDomain or_empty].
    now rewrite !string_app_assoc. }
  split; [|split; [exact Hkey|]].
  - unfold triple. cbn [url anchorText senderDomain or_empty].
    intros [= E _]. exact (app_separator_neq u x E).
  - intros w0 w st0 st1 r Hmiss Hfirst Hw.
    destruct (aggregateSignals_miss w0 st0 _ Hmiss) as (r0 & _ & Hu & _ & E).
    rewrite E in Hfirst. injection Hfirst as -> <-. cbn [url] in Hu.
    split; [exact Hu|].
    rewrite (aggregateSignals_hit w _ _ r).
    + unfold markCached. now rewrite Hu.
    + rewrite <- Hkey. cbn [cache]. now apply cache_get_set.
Qed.

(** *** The response of [POST /scan] *)

(** C8, as amended.  A 200 response of [POST /scan] is [{ ok: true }]
    spread with the aggregated result, so it holds [ok], [url], [verdict],
    [score] and [breakdown]; it holds [cached], with the value [true],
    exactly when the result was served from the cache, and has no [cached]
    key when the result was computed. *)
Theorem scan_response_fields (w : World) (st st' : Server) (req : ScanRequest)
    (resp : Response) :
  post_scan w st req = (resp, st') -> status resp = 200 ->
  exists aggregated,
    json resp = ScanBody true aggregated /\
    match cache_get (now w) (cache st) (cacheKey (scanTarget req)) with
    | Some _ => r_cached aggregated = Some true
    | None => r_cached aggregated = None
    end.
Proof.
  unfold post_scan. destruct (negb (truthy_str (req_url req))).
  - intros [= <- _]. discriminate.
  - destruct (cache_get (now w) (cache st) (cacheKey (scanTarget req))) as [c|] eqn:Hc.
    + rewrite (aggregateSignals_hit _ _ _ _ Hc). intros [= <- _] _.
      exists (markCached c). auto.
    + destruct (aggregateSignals_miss _ _ _ Hc) as (r & Hr & _ & _ & E).
      rewrite E. intros [= <- _] _. exists r. auto.
Qed.

(** [POST /scan] answers 200 whenever [url] is given: nothing in the
    aggregator throws. *)
Lemma post_scan_status (w : World) (st : Server) (req : ScanRequest) :
  status (fst (post_scan w st req)) = if truthy_str (req_url req) then 200 else 400.
Proof.
  unfold post_scan. destruct (truthy_str (req_url req)); simpl; [|reflexivity].
  destruct (cache_get (now w) (cache st) (cacheKey (scanTarget req))) as [c|] eqn:Hc.
  - now rewrite (aggregateSignals_hit _ _ _ _ Hc).
  - destruct (aggregateSignals_miss _ _ _ Hc) as (r & _ & _ & _ & E). now rewrite E.
Qed.

(** *** Score ranges *)

Lemma isScore_ofZ (z : Z) : 0 <= z <= 100 -> isScore (ofZ z).
Proof. intros H. exists z. split; [exact H | reflexivity]. Qed.

(** The clamp [Math.max(0, Math.min(100, n))] of an integer-valued number
    is a score; the clamp of [NaN] is [NaN]. *)
Lemma clamp_isScore (q : Q) (z : Z) :
  (q == inject_Z z)%Q -> isScore (Math_max (ofZ 0) (Math_min (ofZ 100) (Num q))).
Proof.
  intros Hq. unfold Math_min, ofZ, lt.
  destruct (Qltb q (inject_Z 100)) eqn:H100; unfold Math_max, lt.
  - apply Qltb_true in H100.
    destruct (Qltb (inject_Z 0) q) eqn:H0.
    + apply Qltb_true in H0. exists z. split; [|exact Hq].
      rewrite Hq in H0, H100. apply Qlt_le_weak in H0, H100.
      rewrite <- Zle_Qle in H0, H100. lia.
    + apply (isScore_ofZ 0). lia.
  - change (Qltb (inject_Z 0) (inject_Z 100)) with true. apply (isScore_ofZ 100). lia.
Qed.

(** What [normalizeScore] can return: absent, a score, or [NaN]. *)
Lemma normalizeScore_cases (v : value) :
  normalizeScore v = None \/ normalizeScore v = Some NaN \/
  exists q, normalizeScore v = Some (Num q) /\ isScore (Num q).
Proof.
  unfold normalizeScore.
  destruct (loosely_null v || Number_isNaN v); [now left | right].
  destruct (ToNumber v) as [q | | |]; [right | now left | right | right].
  - pose proof (clamp_isScore (inject_Z (Qfloor (q + (1 # 2)))) _ (Qeq_refl _)) as H.
    cbn [Math_round]. unfold ofZ in *.
    destruct (Math_max _ _) as [q' | | |]; try contradiction. eauto.
  - exists (inject_Z 100). split; [reflexivity | apply (isScore_ofZ 100); lia].
  - exists (inject_Z 0). split; [reflexivity | apply (isScore_ofZ 0); lia].
Qed.

(** The slip: a value that is neither [null], [undefined] nor the number
    [NaN], and that [Number] cannot read, passes the guard and comes back
    as [NaN] instead of absent. *)
Lemma normalizeScore_unreadable (v : value) :
  loosely_null v = false -> Number_isNaN v = false -> ToNumber v = NaN ->
  normalizeScore v = Some NaN.
Proof. intros H1 H2 H3. unfold normalizeScore. now rewrite H1, H2, H3. Qed.





Lemma baseScore_cases (s1 s2 : option number) :
  sourceScore s1 -> sourceScore s2 ->
  baseScore s1 s2 = NaN \/ exists b, baseScore s1 s2 = ofZ b.
Proof.
  destruct s1 as [[q1 | | |]|], s2 as [[q2 | | |]|]; simpl; try contradiction;
    intros _ _; unfold baseScore, weighted; cbn [fst snd];
    unfold WEIGHTS.ipqs, WEIGHTS.stalkphish, ofZ, add, mul;
    decide_closed_test; unfold div; try decide_closed_test;
    try (left; reflexivity); right; eexists; reflexivity.
Qed.

Lemma Math_min_ofZ (a b : Z) : Math_min (ofZ a) (ofZ b) = ofZ (Z.min a b).
Proof.
  unfold Math_min. change (lt (ofZ b) (ofZ a)) with (gt (ofZ a) (ofZ b)).
  rewrite gt_ofZ. unfold ofZ.
  destruct (Z.ltb_spec b a); f_equal; f_equal; lia.
Qed.

Lemma finalRaw_cases (s1 s2 : option number) (heurScoreRaw : Z) (authR : DomainAuth) :
  sourceScore s1 -> sourceScore s2 ->
  finalRaw s1 s2 heurScoreRaw authR = NaN \/ isScore (finalRaw s1 s2 heurScoreRaw authR).
Proof.
  intros H1 H2. unfold finalRaw. rewrite Math_min_ofZ.
  destruct (baseScore_cases s1 s2 H1 H2) as [-> | [b ->]]; [now left | right].
  unfold ofZ at 3 4 5. cbn [add].
  apply (clamp_isScore _ (b + Z.min 30 heurScoreRaw + authBonus authR)).
  now rewrite !inject_Z_plus.
Qed.

(** The override on a readable raw score: the floor of 85 and the verdict
    [malicious]. *)
Lemma override_floor (raw : number) :
  isScore raw ->
  isScore (Math_max raw (ofZ 85)) /\
  ge (Math_max raw (ofZ 85)) (ofZ 85) = true /\
  urlVerdict (Math_max raw (ofZ 85)) = malicious.
Proof.
  destruct raw as [q | | |]; try contradiction. intros (z & Hz & Hq).
  assert (H : isScore (Math_max (Num q) (ofZ 85))
              /\ ge (Math_max (Num q) (ofZ 85)) (ofZ 85) = true).
  { unfold Math_max, ofZ, lt, ge, le. destruct (Qltb q (inject_Z 85)) eqn:E.
    - split; [apply (isScore_ofZ 85); lia | reflexivity].
    - apply Qltb_false in E. split; [exists z; auto | now apply Qle_bool_iff]. }
  destruct H as [Hs Hge]. repeat split; auto.
  unfold urlVerdict.
  destruct (Math_max (Num q) (ofZ 85)) as [m | | |]; try contradiction.
  unfold ge, le, ofZ in *. apply Qle_bool_iff in Hge.
  assert (Qle_bool (inject_Z 70) m = true) as ->; [|reflexivity].
  apply Qle_bool_iff. eapply Qle_trans; [|exact Hge]. rewrite <- Zle_Qle. lia.
Qed.

Lemma callIPQS_sourceScore w u :
  sourceScore (match callIPQS w u with Some r => ipqs_score r | None => None end).
Proof.
  unfold callIPQS. destruct (negb _); [exact I|].
  destruct (ipqs_response w u) as [data|]; [|exact I]. cbn [ipqs_score].
  assert (H : sourceScore (normalizeScore (fraud_score data))).
  { destruct (normalizeScore_cases (fraud_score data)) as [-> | [-> | (q & -> & _)]];
      exact I. }
  now destruct (fraud_score data).
Qed.

Lemma callStalkPhish_sourceScore w u :
  sourceScore (match callStalkPhish w u with Some r => stalk_score r | None => None end).
Proof.
  unfold callStalkPhish. destruct (negb _); [exact I|].
  destruct (stalkphish_response w u) as [data|]; [|exact I]. cbn [stalk_score].
  assert (H : sourceScore (normalizeScore (riskScore data))).
  { destruct (normalizeScore_cases (riskScore data)) as [-> | [-> | (q & -> & _)]];
      exact I. }
  now destruct (riskScore data).
Qed.

(** A computed URL score is a score or [NaN]; under the override a score
    is at least 85 with verdict [malicious]. *)
Lemma computed_score_cases w st target :
  cache_get (now w) (cache st) (cacheKey target) = None ->
  exists r, fst (aggregateSignals w st target) = Return r /\
    (r_score r = NaN \/
     isScore (r_score r) /\
     (explicitMalicious (callIPQS w (url target)) = true ->
      ge (r_score r) (ofZ 85) = true /\ r_verdict r = malicious)).
Proof.
  intros Hmiss. unfold aggregateSignals, aggregateSignalsAt. rewrite Hmiss.
  unfold scoreSignals.
  match goal with |- context [heuristicsScore ?a ?b ?c ?d] =>
    destruct (heuristicsScore_returns a b c d) as (h & -> & _) end.
  cbn [bind fst]. eexists. split; [reflexivity|]. cbn [r_score r_verdict].
  match goal with |- context [finalRaw ?a ?b ?c ?d] =>
    destruct (finalRaw_cases a b c d (callIPQS_sourceScore w (url target))
                (callStalkPhish_sourceScore w (url target))) as [-> | Hs]
  end.
  - left. now destruct (explicitMalicious _).
  - right. destruct (explicitMalicious _).
    + destruct (override_floor _ Hs) as (H1 & H2 & H3). auto.
    + split; [exact Hs | discriminate].
Qed.

(** *** The email score *)

Lemma analyzeHeaders_nonneg (headersText : option string) :
  0 <= fst (analyzeHeaders headersText).
Proof.
  unfold analyzeHeaders. destruct (negb (truthy_str headersText)); simpl; [lia|].
  repeat match goal with |- context [authStep ?a ?b ?c ?d ?e ?f] =>
    destruct (authStep a b c d e f) end.
  simpl. lia.
Qed.

Lemma analyzeBody_nonneg (bodyText : option string) : 0 <= fst (analyzeBody bodyText).
Proof.
  unfold analyzeBody. destruct (negb (truthy_str bodyText)); [simpl; lia|].
  generalize (toLowerCase P (or_empty bodyText)). intros lowerBody.
  assert (H : forall ks acc, 0 <= fst acc ->
            0 <= fst (fold_left
                        (fun acc keyword =>
                           if includes lowerBody keyword
                           then (fst acc + 8, snd acc ++ [keyword]) else acc) ks acc)).
  { induction ks as [|k ks IH]; intros acc Hacc; simpl; [exact Hacc|].
    apply IH. destruct (includes lowerBody k); simpl; lia. }
  apply H. simpl. lia.
Qed.



Lemma worstLink_atLeastZero (linkResults : list ScanResult) :
  atLeastZero (highestLinkScore (worstLink linkResults)).
Proof.
  unfold worstLink.
  assert (H : forall rs acc, atLeastZero (highestLinkScore acc) ->
            atLeastZero (highestLinkScore (fold_left pickHigher rs acc))).
  { induction rs as [|r rs IH]; intros acc Hacc; simpl; [exact Hacc|].
    apply IH. unfold pickHigher, gt, lt.
    destruct (highestLinkScore acc) as [q | | |] eqn:Ea; try contradiction;
      destruct (r_score r) as [q' | | |] eqn:Er; simpl; rewrite ?Ea; auto.
    destruct (Qltb q q') eqn:E; simpl; rewrite ?Ea; auto.
    apply Qltb_true in E. simpl in Hacc. lra. }
  apply H. simpl. apply Qle_refl.
Qed.

Lemma emailScore_isScore (headerScore bodyScore : Z) (highest : number) :
  0 <= headerScore -> 0 <= bodyScore -> atLeastZero highest ->
  isScore (emailScore headerScore bodyScore highest).
Proof.
  intros Hh Hb Hl. unfold emailScore.
  destruct highest as [q | | |]; try contradiction.
  - unfold ofZ. cbn [mul add]. fold (ofZ 100).
    set (x := (inject_Z headerScore * (2 # 5) + inject_Z bodyScore * (1 # 5)
               + q * (2 # 5))%Q).
    assert (Hx : (0 <= x)%Q).
    { subst x. simpl in Hl. rewrite Zle_Qle in Hh, Hb.
      change (inject_Z 0) with 0%Q in Hh, Hb. nra. }
    assert (Hy : exists y, Math_min (ofZ 100) (Num x) = Num y /\ (0 <= y <= 100)%Q).
    { unfold Math_min, ofZ, lt. destruct (Qltb x (inject_Z 100)) eqn:E.
      - apply Qltb_true in E. exists x. change (inject_Z 100) with 100%Q in E.
        split; [reflexivity | lra].
      - exists (inject_Z 100). split; [reflexivity|].
        change (inject_Z 100) with 100%Q. lra. }
    destruct Hy as (y & -> & Hy0 & Hy1). cbn [Math_round].
    apply isScore_ofZ. split.
    + change 0 with (Qfloor 0). apply Qfloor_resp_le. lra.
    + rewrite <- (Qfloor_half 100 (100 + (1 # 2))) by reflexivity.
      apply Qfloor_resp_le. lra.
  - unfold ofZ. cbn [mul add]. fold (ofZ 100).
    change (scale_inf true (2 # 5)) with PInf. cbn [add].
    change (Math_round (Math_min (ofZ 100) PInf)) with (ofZ 100).
    apply isScore_ofZ. lia.
Qed.

(** The link analysis of a 200 response is the loop's result over the
    settled link scans. *)
Lemma scan_email_link_analysis (w : World) (st : Server) (req : EmailRequest)
    (linkResults : list ScanResult) :
  truthy_str (body req) = true ->
  Promise_all (fst (scanLinks w st (match links req with Some ls => ls | None => [] end)))
  = Return linkResults ->
  exists verdict score breakdown,
    json (fst (post_scan_email w st req)) = EmailBody true verdict score breakdown /\
    status (fst (post_scan_email w st req)) = 200 /\
    linkAnalysis breakdown = worstLink linkResults.
Proof.
  intros Hb Hall. unfold post_scan_email. rewrite Hb. cbn [negb].
  destruct (scanLinks w st _) as [promises st']. cbn [fst] in Hall. rewrite Hall.
  cbn [fst json status]. do 3 eexists. split; [reflexivity|]. split; reflexivity.
Qed.

(** X1. Every 200 response of [POST /scan-email] carries a score, an integer
    from 0 to 100, whatever the cache holds. *)
Lemma scan_email_score_range (w : World) (st : Server) (req : EmailRequest) :
  match json (fst (post_scan_email w st req)) with
  | EmailBody _ verdict score breakdown =>
      isScore score /\ verdict = emailVerdict score
      /\ breakdown_finalScore breakdown = score
  | ScanBody _ _ => False
  | ErrorBody _ _ => True
  end.
Proof.
  unfold post_scan_email. destruct (negb (truthy_str (body req))); [exact I|].
  destruct (scanLinks w st _) as [promises st'].
  destruct (Promise_all promises) as [linkResults|]; [|exact I].
  cbn [fst json breakdown_finalScore]. split; [|auto].
  apply emailScore_isScore;
    [apply analyzeHeaders_nonneg | apply analyzeBody_nonneg | apply worstLink_atLeastZero].
Qed.

(** ** Further properties of the code *)

(** *** Integer arithmetic on [number] *)

Lemma add_ofZ (a b : Z) : add (ofZ a) (ofZ b) = ofZ (a + b).
Proof.
  unfold add, ofZ, Qplus, inject_Z. cbn [Qnum Qden]. do 2 f_equal. lia.
Qed.

Lemma Math_max_ofZ (a b : Z) : Math_max (ofZ a) (ofZ b) = ofZ (Z.max a b).
Proof.
  unfold Math_max. change (lt (ofZ a) (ofZ b)) with (gt (ofZ b) (ofZ a)).
  rewrite gt_ofZ. unfold ofZ.
  destruct (Z.ltb_spec a b); f_equal; f_equal; lia.
Qed.

Lemma clamp_ofZ (z : Z) :
  Math_max (ofZ 0) (Math_min (ofZ 100) (ofZ z)) = ofZ (Z.max 0 (Z.min 100 z)).
Proof. now rewrite Math_min_ofZ, Math_max_ofZ. Qed.


(** *** [normalizeScore] on numbers *)

(** X2. On a finite number [normalizeScore] returns the nearest integer
    (ties upwards) clamped to [0, 100]: always an integer from 0 to 100,
    0 for every number at or below 0, 100 for every number at or above
    100, and within one half of the number in between. *)
Theorem normalizeScore_rounds_and_clamps (q : Q) :
  exists z,
    normalizeScore (VNumber (Num q)) = Some (ofZ z) /\
    0 <= z <= 100 /\
    ((q <= 0)%Q -> z = 0) /\
    ((100 <= q)%Q -> z = 100) /\
    ((0 <= q <= 100)%Q -> (q - (1 # 2) < inject_Z z <= q + (1 # 2))%Q).
Proof.
  exists (Z.max 0 (Z.min 100 (Qfloor (q + (1 # 2))))).
  pose proof (Qfloor_le (q + (1 # 2))) as Hlo.
  pose proof (Qlt_floor (q + (1 # 2))) as Hhi.
  set (f := Qfloor (q + (1 # 2))) in *.
  rewrite inject_Z_plus in Hhi. change (inject_Z 1) with 1%Q in Hhi.
  split; [|split; [lia|]].
  - unfold normalizeScore. cbn [loosely_null Number_isNaN orb ToNumber Math_round].
    fold f. now rewrite clamp_ofZ.
  - split; [|split].
    + intros Hq. assert (f <= 0); [|lia].
      apply Z.lt_succ_r. rewrite Zlt_Qlt.
      change (inject_Z (Z.succ 0)) with 1%Q. lra.
    + intros Hq. assert (100 <= f); [|lia].
      apply Z.lt_succ_r. rewrite Zlt_Qlt. unfold Z.succ.
      rewrite inject_Z_plus. change (inject_Z 100) with 100%Q.
      change (inject_Z 1) with 1%Q. lra.
    + intros [Hq0 Hq1].
      assert (0 <= f).
      { apply Z.lt_succ_r. rewrite Zlt_Qlt. unfold Z.succ.
        rewrite inject_Z_plus. change (inject_Z 0) with 0%Q.
        change (inject_Z 1) with 1%Q. lra. }
      assert (f <= 100).
      { rewrite Zle_Qle. change (inject_Z 100) with 100%Q.
        assert (~ (100 < inject_Z f)%Q); [|lra].
        intros Hc. assert (Hc' : (inject_Z 101 <= inject_Z f)%Q).
        { rewrite <- Zle_Qle. change 101 with (Z.succ 100). apply Z.le_succ_l.
          rewrite Zlt_Qlt. exact Hc. }
        change (inject_Z 101) with 101%Q in Hc'. lra. }
      replace (Z.max 0 (Z.min 100 f)) with f by lia. lra.
Qed.

(** *** Hosts that are IPv4 literals *)

Lemma split_dot_nonempty (s : string) : split_dot s <> [].
Proof.
  destruct s as [|c r]; simpl; [discriminate|].
  destruct (Ascii.eqb c "."); [discriminate|].
  destruct (split_dot r); discriminate.
Qed.

Lemma join_split_dot (s : string) : join_dot (split_dot s) = s.
Proof.
  induction s as [|c r IH]; [reflexivity|]. simpl.
  destruct (Ascii.eqb_spec c ".") as [-> | Hc].
  - pose proof (split_dot_nonempty r) as Hne.
    destruct (split_dot r) as [|seg segs]; [contradiction|].
    cbn [join_dot append]. cbn [join_dot] in IH. now rewrite IH.
  - destruct (split_dot r) as [|seg segs] eqn:E.
    + now destruct (split_dot_nonempty r).
    + rewrite <- IH. destruct segs; reflexivity.
Qed.

Lemma split_dot_plain (a : string) :
  every (fun c => negb (is_dot c)) a = true -> split_dot a = [a].
Proof.
  induction a as [|c a IH]; [reflexivity|]. simpl. unfold is_dot at 1.
  intros H. apply andb_true_iff in H as [Hc Ha].
  apply negb_true_iff in Hc. rewrite Hc, (IH Ha). reflexivity.
Qed.

Lemma split_dot_app (a r : string) :
  every (fun c => negb (is_dot c)) a = true ->
  split_dot (a ++ String "." r) = a :: split_dot r.
Proof.
  induction a as [|c a IH]; [reflexivity|]. simpl. unfold is_dot at 1.
  intros H. apply andb_true_iff in H as [Hc Ha].
  apply negb_true_iff in Hc. rewrite Hc, (IH Ha). reflexivity.
Qed.

Lemma is_digit_not_dot (c : ascii) : is_digit c = true -> is_dot c = false.
Proof.
  unfold is_dot. destruct (Ascii.eqb_spec c ".") as [-> | _]; [discriminate | reflexivity].
Qed.

Lemma digits_1_3_every (seg : string) :
  digits_1_3 seg = true -> every is_digit seg = true.
Proof.
  unfold digits_1_3. generalize is_digit. intros p.
  destruct seg as [|a [|b [|c [|d r]]]]; simpl; try discriminate.
  - now destruct (p a).
  - now destruct (p a), (p b).
  - now destruct (p a), (p b), (p c).
Qed.

Lemma every_impl (p q : ascii -> bool) (s : string) :
  (forall c, p c = true -> q c = true) -> every p s = true -> every q s = true.
Proof.
  intros Hpq. induction s as [|c r IH]; [reflexivity|]. simpl.
  intros H. apply andb_true_iff in H as [Hc Hr]. now rewrite (Hpq c Hc), (IH Hr).
Qed.

Lemma digits_1_3_plain (seg : string) :
  digits_1_3 seg = true -> every (fun c => negb (is_dot c)) seg = true.
Proof.
  intros H. apply (every_impl is_digit); [|now apply digits_1_3_every].
  intros c Hc. now rewrite (is_digit_not_dot c Hc).
Qed.

(** X3. [hasIPInHostname] holds exactly for the hosts of the pattern
    [^(\d{1,3}\.){3}\d{1,3}$]: four runs of one to three decimal digits
    joined by dots, whatever their values (an octet above 255 passes). *)
Theorem hasIPInHostname_dotted_quad (hostname : string) :
  hasIPInHostname hostname = true <->
  exists a b c d,
    hostname = (a ++ "." ++ b ++ "." ++ c ++ "." ++ d)%string /\
    digits_1_3 a = true /\ digits_1_3 b = true /\
    digits_1_3 c = true /\ digits_1_3 d = true.
Proof.
  unfold hasIPInHostname. split.
  - pose proof (join_split_dot hostname) as J.
    destruct (split_dot hostname) as [|a [|b [|c [|d [|e r]]]]]; try discriminate.
    intros H. repeat (apply andb_true_iff in H as [H ?]).
    exists a, b, c, d. cbn [join_dot] in J. auto.
  - intros (a & b & c & d & -> & Ha & Hb & Hc & Hd).
    change (a ++ "." ++ b ++ "." ++ c ++ "." ++ d)%string
      with (a ++ String "." (b ++ String "." (c ++ String "." d)))%string.
    rewrite (split_dot_app a), (split_dot_app b), (split_dot_app c), (split_dot_plain d)
      by now apply digits_1_3_plain.
    now rewrite Ha, Hb, Hc, Hd.
Qed.

Lemma every_join_dot (p : ascii -> bool) (segs : list string) :
  p "."%char = true -> Forall (fun seg => every p seg = true) segs ->
  every p (join_dot segs) = true.
Proof.
  intros Hdot H. induction H as [|seg rest Hseg Hrest IH]; [reflexivity|].
  destruct rest as [|seg' rest']; [exact Hseg|].
  change (join_dot (seg :: seg' :: rest'))
    with (seg ++ String "." (join_dot (seg' :: rest')))%string.
  clear Hrest. induction seg as [|c seg IHs].
  - change (every p (String "." (join_dot (seg' :: rest'))) = true).
    cbn [every]. now rewrite Hdot, IH.
  - change (every p (String c (seg ++ String "." (join_dot (seg' :: rest')))) = true).
    cbn [every] in *. apply andb_true_iff in Hseg as [Hc Hs]. now rewrite Hc, IHs.
Qed.

Lemma every_not_includes (p : ascii -> bool) (s sub : string) (c0 : ascii) (rest : string) :
  sub = String c0 rest -> p c0 = false -> every p s = true -> includes s sub = false.
Proof.
  intros -> Hc0. induction s as [|c r IH]; [reflexivity|]. simpl.
  intros H. apply andb_true_iff in H as [Hc Hr]. rewrite (IH Hr), orb_false_r.
  destruct (ascii_dec c0 c) as [<- | Hne]; [congruence|].
  unfold String.prefix.
  destruct (Ascii.eqb_spec c0 c); [contradiction|].
  reflexivity.
Qed.

(** A literal IPv4 host holds digits and dots only, so it is never a
    punycode host. *)
Lemma ip_host_not_punycode (hostname : string) :
  hasIPInHostname hostname = true -> isPunycode hostname = false.
Proof.
  intros H. unfold isPunycode.
  apply (every_not_includes (fun c => is_digit c || is_dot c) _ _ "x" "n--");
    [reflexivity | reflexivity |].
  rewrite <- (join_split_dot hostname). unfold hasIPInHostname in H.
  destruct (split_dot hostname) as [|a [|b [|c [|d [|e r]]]]]; try discriminate.
  repeat (apply andb_true_iff in H as [H ?]).
  apply every_join_dot; [reflexivity|].
  repeat constructor;
    (apply (every_impl is_digit); [intros ? ->; reflexivity | now apply digits_1_3_every]).
Qed.

(** *** The heuristic score is bounded *)

Lemma anchorPoints_bounds hostname anchorText score :
  exists n, anchorPoints hostname anchorText score = Return n /\ score <= n <= score + 12.
Proof.
  unfold anchorPoints, new_URL.
  destruct (truthy_str anchorText); [|exists score; split; [reflexivity | lia]].
  destruct (match_host_token P _) as [m0|]; [|exists score; split; [reflexivity | lia]].
  destruct (startsWith m0 "http"); [destruct (URL_hostname P m0) as [h|]|]; simpl;
    repeat match goal with |- context [if ?b then _ else _] => destruct b end;
    eexists; (split; [reflexivity | lia]).
Qed.

Lemma finalUrlPoints_bounds hostname finalUrl score :
  exists n, finalUrlPoints hostname finalUrl score = Return n /\ score <= n <= score + 6.
Proof.
  unfold finalUrlPoints, new_URL.
  destruct (truthy_str finalUrl); [|exists score; split; [reflexivity | lia]].
  destruct (URL_hostname P _) as [h|]; simpl;
    repeat match goal with |- context [if ?b then _ else _] => destruct b end;
    eexists; (split; [reflexivity | lia]).
Qed.

(** X4. [heuristicsScore] never exceeds 50.  The six contributions add up
    to 60, but a host cannot be a literal IPv4 address (12) and contain
    the punycode prefix (10) at once. *)
Theorem heuristicsScore_at_most_50 url anchorText redirectCount finalUrl :
  exists n, heuristicsScore url anchorText redirectCount finalUrl = Return n
            /\ 0 <= n <= 50.
Proof.
  unfold heuristicsScore, new_URL.
  destruct (URL_hostname P url) as [hostname|]; simpl;
    [|exists 0; split; [reflexivity | lia]].
  destruct (anchorPoints_bounds hostname anchorText 0) as (a & -> & Ha). simpl.
  match goal with |- context [finalUrlPoints hostname finalUrl ?s] =>
    destruct (finalUrlPoints_bounds hostname finalUrl s) as (n & -> & Hn);
    assert (a <= s <= a + 32)
  end.
  { destruct (hasIPInHostname hostname) eqn:Hip;
      [rewrite (ip_host_not_punycode _ Hip) | destruct (isPunycode hostname)];
      destruct (truthy_str _ && suspiciousTLDs_has _);
      destruct redirectCount as [k|];
      repeat match goal with |- context [if ?b then _ else _] =>
        destruct b eqn:? end; lia. }
  simpl. exists n. split; [reflexivity | lia].
Qed.

(** *** Scores from readable sources *)

Lemma baseScore_readable (s1 s2 : option number) :
  readable s1 -> readable s2 -> exists b, baseScore s1 s2 = ofZ b.
Proof.
  destruct s1 as [[q1 | | |]|], s2 as [[q2 | | |]|]; simpl; try contradiction;
    intros _ _; unfold baseScore, weighted; cbn [fst snd];
    unfold WEIGHTS.ipqs, WEIGHTS.stalkphish, ofZ, add, mul;
    decide_closed_test; unfold div; try decide_closed_test;
    eexists; reflexivity.
Qed.

Lemma finalRaw_readable (s1 s2 : option number) (heurScoreRaw : Z) (authR : DomainAuth) :
  readable s1 -> readable s2 -> isScore (finalRaw s1 s2 heurScoreRaw authR).
Proof.
  intros H1 H2. unfold finalRaw. rewrite Math_min_ofZ.
  destruct (baseScore_readable _ _ H1 H2) as [b ->].
  rewrite !add_ofZ, clamp_ofZ. apply isScore_ofZ. lia.
Qed.

(** X5. When every source score present is a number (no source answered
    with a score [Number] cannot read), the score a scan computes is an
    integer from 0 to 100, and under an IPQS [malicious] or [phishing]
    flag it is at least 85 with the verdict [malicious]. *)
Theorem readable_sources_give_a_score (w : World) (st : Server) (target : ScanTarget) :
  cache_get (now w) (cache st) (cacheKey target) = None ->
  readable (match callIPQS w (url target) with Some r => ipqs_score r | None => None end) ->
  readable (match callStalkPhish w (url target) with
            | Some r => stalk_score r | None => None end) ->
  exists r, fst (aggregateSignals w st target) = Return r /\
    isScore (r_score r) /\
    r_verdict r = urlVerdict (r_score r) /\
    (explicitMalicious (callIPQS w (url target)) = true ->
     ge (r_score r) (ofZ 85) = true /\ r_verdict r = malicious).
Proof.
  intros Hmiss H1 H2. unfold aggregateSignals, aggregateSignalsAt. rewrite Hmiss.
  unfold scoreSignals.
  match goal with |- context [heuristicsScore ?a ?b ?c ?d] =>
    destruct (heuristicsScore_returns a b c d) as (h & -> & _) end.
  cbn [bind fst]. eexists. split; [reflexivity|]. cbn [r_score r_verdict].
  match goal with |- context [finalRaw ?a ?b ?c ?d] =>
    pose proof (finalRaw_readable a b c d H1 H2) as Hs;
    generalize dependent (finalRaw a b c d); intros raw Hs
  end.
  destruct (override_floor raw Hs) as (Ho & Hge & Hv).
  split; [|split; [reflexivity|]].
  - now destruct (explicitMalicious _).
  - intros ->. auto.
Qed.

(** *** Scans without any reputation source *)



(** *** The weighted mean of two sources *)

Lemma baseScore_both (a b : Z) :
  baseScore (Some (ofZ a)) (Some (ofZ b)) = ofZ ((4 * a + 2 * b + 3) / 6).
Proof.
  unfold baseScore, weighted. cbn [fst snd].
  unfold WEIGHTS.ipqs, WEIGHTS.stalkphish, ofZ, add, mul.
  decide_closed_test. unfold div. decide_closed_test.
  cbn [Math_round]. unfold ofZ. do 2 f_equal.
  assert (E : ((inject_Z 0 + inject_Z a * (1 # 2) + inject_Z b * (1 # 4))
               / (inject_Z 0 + (1 # 2) + (1 # 4)) + (1 # 2)
               == (4 * a + 2 * b + 3) # 6)%Q).
  { rewrite (Qmake_Qdiv (4 * a + 2 * b + 3) 6).
    rewrite !inject_Z_plus, !inject_Z_mult.
    change (inject_Z (Z.pos 6)) with 6%Q. change (inject_Z 4) with 4%Q.
    change (inject_Z 2) with 2%Q. change (inject_Z 3) with 3%Q.
    change (inject_Z 0) with 0%Q. field. }
  rewrite E. reflexivity.
Qed.

(** X7. With both source scores present the base score is the mean with
    IPQS counted twice, rounded to the nearest integer:
    [floor((4a + 2b + 3) / 6)], which lies between the two scores. *)
Theorem baseScore_weighted_mean (a b : Z) :
  baseScore (Some (ofZ a)) (Some (ofZ b)) = ofZ ((4 * a + 2 * b + 3) / 6) /\
  Z.min a b <= (4 * a + 2 * b + 3) / 6 <= Z.max a b.
Proof.
  split; [apply baseScore_both|].
  pose proof (Z.div_mod (4 * a + 2 * b + 3) 6) as Hdiv.
  pose proof (Z.mod_pos_bound (4 * a + 2 * b + 3) 6) as Hmod. lia.
Qed.

(** *** What a scan does to the cache *)

(** X8. A scan reads and writes the entry of its own fingerprint only:
    the entry under every other key is the same before and after, and the
    trace of lookups only grows. *)
Theorem scan_touches_only_its_key (w : World) (st : Server) (target : ScanTarget)
    (key : string) :
  key <> cacheKey target ->
  cache (snd (aggregateSignals w st target)) !! key = cache st !! key /\
  exists issued, calls (snd (aggregateSignals w st target)) = calls st ++ issued.
Proof.
  intros Hne.
  destruct (cache_get (now w) (cache st) (cacheKey target)) as [c|] eqn:Hc.
  - rewrite (aggregateSignals_hit _ _ _ _ Hc). cbn [snd]. split; [reflexivity|].
    exists []. now rewrite app_nil_r.
  - destruct (aggregateSignals_miss _ _ _ Hc) as (r & _ & _ & _ & ->). cbn [snd cache calls].
    split; [|eauto]. unfold cache_set. apply lookup_insert_ne. congruence.
Qed.

Lemma repeat_hits (st : Server) (target : ScanTarget) (r : ScanResult) (ws : list World) :
  Forall (fun w => cache_get (now w) (cache st) (cacheKey target) = Some r) ws ->
  repeatScan ws st target = (map (fun _ => Return (markCached r)) ws, st).
Proof.
  induction 1 as [|w ws Hw _ IH]; [reflexivity|].
  simpl. now rewrite (aggregateSignals_hit w st target r Hw), IH.
Qed.

(** X9. The TTL runs from the moment a result is written and is not
    extended by reads.  After a scan computed a result, however many
    repeats were served from the cache in between, a scan that starts after
    the entry's expiry instant computes again, with fresh lookups, and
    replaces the entry. *)
Theorem expired_entry_is_recomputed (w0 w : World) (st0 st1 : Server)
    (target : ScanTarget) (r : ScanResult) (ws : list World) :
  cache_get (now w0) (cache st0) (cacheKey target) = None ->
  aggregateSignals w0 st0 target = (Return r, st1) ->
  CACHE_TTL_SECONDS cfg <> 0 ->
  settled w0 + CACHE_TTL_SECONDS cfg * 1000 <> 0 ->
  Forall (fun w' => now w' <= settled w0 + CACHE_TTL_SECONDS cfg * 1000) ws ->
  settled w0 + CACHE_TTL_SECONDS cfg * 1000 < now w ->
  snd (repeatScan ws st1 target) = st1 /\
  exists r',
    r_cached r' = None /\
    aggregateSignals w (snd (repeatScan ws st1 target)) target
    = (Return r',
       {| cache := cache_set (settled w) (cacheKey target) r' (cache st1);
          calls := calls st1 ++ lookups target |}).
Proof.
  intros Hmiss Hfirst Httl Hexp Hws Hlate.
  destruct (aggregateSignals_miss w0 st0 target Hmiss) as (r0 & _ & _ & _ & E).
  rewrite E in Hfirst. injection Hfirst as -> <-.
  rewrite (repeat_hits _ target r ws).
  - cbn [snd]. split; [reflexivity|].
    match goal with |- context [aggregateSignals w ?s target] =>
      destruct (aggregateSignals_miss w s target) as (r' & Hc & _ & _ & E') end.
    + cbn [cache]. unfold cache_get, cache_set. rewrite lookup_insert_eq. cbn [e_expires e_value].
      destruct (Z.eqb_spec (CACHE_TTL_SECONDS cfg) 0) as [|_]; [contradiction|].
      destruct (Z.eqb_spec (settled w0 + CACHE_TTL_SECONDS cfg * 1000) 0) as [|_];
        [contradiction|].
      destruct (Z.leb_spec (now w) (settled w0 + CACHE_TTL_SECONDS cfg * 1000));
        [lia | reflexivity].
    + exists r'. split; [exact Hc | exact E'].
  - eapply Forall_impl; [exact Hws|]. intros w' Hw'. cbn [cache].
    apply cache_get_set. now right.
Qed.

(** X10. The cache cannot tell two targets with one fingerprint apart.
    After a scan of [t1] computed a result, a scan of any [t2] with the same
    fingerprint within the TTL is answered with [t1]'s result, [url]
    included, and issues no lookup. *)
Theorem colliding_target_gets_stored_result (w0 w : World) (st0 st1 : Server)
    (t1 t2 : ScanTarget) (r : ScanResult) :
  cacheKey t1 = cacheKey t2 ->
  cache_get (now w0) (cache st0) (cacheKey t1) = None ->
  aggregateSignals w0 st0 t1 = (Return r, st1) ->
  CACHE_TTL_SECONDS cfg = 0 \/ now w <= settled w0 + CACHE_TTL_SECONDS cfg * 1000 ->
  aggregateSignals w st1 t2 = (Return (markCached r), st1) /\
  r_url (markCached r) = url t1.
Proof.
  intros Hkey Hmiss Hfirst Hw.
  destruct (aggregateSignals_miss w0 st0 t1 Hmiss) as (r0 & _ & Hu & _ & E).
  rewrite E in Hfirst. injection Hfirst as -> <-. split; [|exact Hu].
  apply aggregateSignals_hit. rewrite <- Hkey. cbn [cache]. now apply cache_get_set.
Qed.

(** *** An invariant of the cache *)

Lemma scoreSignals_sound w target redirectR authR r :
  scoreSignals target (callIPQS w (url target)) (callStalkPhish w (url target))
    redirectR authR = Return r ->
  soundResult r.
Proof.
  intros H. destruct (scoreSignals_verdict _ _ _ _ _ _ H) as (Hv & _ & Hc).
  split; [exact Hc|]. split; [exact Hv|].
  unfold scoreSignals in H.
  destruct (heuristicsScore _ _ _ _) as [h|]; [|discriminate].
  cbn [bind] in H. injection H as <-. cbn [r_score].
  match goal with |- context [finalRaw ?a ?b ?c ?d] =>
    destruct (finalRaw_cases a b c d (callIPQS_sourceScore w (url target))
                (callStalkPhish_sourceScore w (url target))) as [-> | Hs]
  end.
  - left. now destruct (explicitMalicious _).
  - right. destruct (explicitMalicious _); [apply override_floor|]; exact Hs.
Qed.

Lemma markCached_soundScore (r : ScanResult) : soundResult r -> soundScore (markCached r).
Proof. intros [_ H]. exact H. Qed.

Lemma cacheSound_get (t : Z) (c : gmap string Entry) (key : string) (r : ScanResult) :
  cacheSound c -> cache_get t c key = Some r -> soundResult r.
Proof.
  intros Hc. unfold cache_get. destruct (c !! key) as [e|] eqn:E; [|discriminate].
  destruct (_ || _); [|discriminate]. intros [= <-]. exact (Hc key e E).
Qed.

Lemma cacheSound_set (t : Z) (c : gmap string Entry) (key : string) (r : ScanResult) :
  cacheSound c -> soundResult r -> cacheSound (cache_set t key r c).
Proof.
  intros Hc Hr k e. unfold cache_set. rewrite lookup_insert.
  destruct (decide (key = k)) as [_ | _]; [intros [= <-]; exact Hr | apply Hc].
Qed.

Lemma aggregateSignalsAt_sound w seen st target :
  cacheSound seen -> cacheSound (cache st) ->
  cacheSound (cache (snd (aggregateSignalsAt w seen st target))) /\
  forall r, fst (aggregateSignalsAt w seen st target) = Return r -> soundScore r.
Proof.
  intros Hseen Hst. unfold aggregateSignalsAt.
  destruct (cache_get (now w) seen (cacheKey target)) as [c|] eqn:Hc.
  - cbn [fst snd]. split; [exact Hst|]. intros r [= <-].
    apply markCached_soundScore. exact (cacheSound_get _ _ _ _ Hseen Hc).
  - match goal with |- context [scoreSignals ?t ?a ?b ?c ?d] =>
      destruct (scoreSignals t a b c d) as [r|] eqn:E end; cbn [fst snd cache].
    + pose proof (scoreSignals_sound _ _ _ _ _ E) as Hr.
      split; [now apply cacheSound_set|]. intros r' [= <-]. apply Hr.
    + split; [exact Hst | discriminate].
Qed.

Lemma scanLinks_sound w st ls :
  cacheSound (cache st) ->
  cacheSound (cache (snd (scanLinks w st ls))) /\
  Forall (fun o => forall r, o = Return r -> soundScore r) (fst (scanLinks w st ls)).
Proof.
  intros Hst. unfold scanLinks.
  assert (H : forall ls acc,
            cacheSound (cache (snd acc)) ->
            Forall (fun o => forall r, o = Return r -> soundScore r) (fst acc) ->
            let res := fold_left
                         (fun acc link =>
                            let '(r, st') :=
                              aggregateSignalsAt w (cache st) (snd acc)
                                {| url := href link; anchorText := link_anchorText link;
                                   senderDomain := None |} in
                            (fst acc ++ [r], st')) ls acc in
            cacheSound (cache (snd res)) /\
            Forall (fun o => forall r, o = Return r -> soundScore r) (fst res)).
  { clear ls. induction ls as [|l ls IH]; intros acc Hc Hf; cbn [fold_left]; [auto|].
    apply IH;
      destruct (aggregateSignalsAt_sound w (cache st) (snd acc)
                  {| url := href l; anchorText := link_anchorText l;
                     senderDomain := None |} Hst Hc) as [H1 H2];
      destruct (aggregateSignalsAt _ _ _ _) as [o st']; cbn [fst snd] in *.
    - exact H1.
    - apply Forall_app. split; [exact Hf|]. constructor; [exact H2 | constructor]. }
  apply (H ls ([], st)); [exact Hst | constructor].
Qed.

(** X11. Both endpoints keep the cache sound.  If every stored result has
    no [cached] key, a verdict that is the one its score maps to, and a
    score that is an integer from 0 to 100 or [NaN], the same holds after
    [POST /scan] and after [POST /scan-email], whatever the request and
    the answers of the lookups. *)
Theorem endpoints_keep_cache_sound (w : World) (st : Server) (req : ScanRequest)
    (ereq : EmailRequest) :
  cacheSound (cache st) ->
  cacheSound (cache (snd (post_scan w st req))) /\
  cacheSound (cache (snd (post_scan_email w st ereq))).
Proof.
  intros Hst. split.
  - unfold post_scan. destruct (negb _); [exact Hst|].
    destruct (aggregateSignalsAt_sound w (cache st) st (scanTarget req) Hst Hst) as [H _].
    unfold aggregateSignals. destruct (aggregateSignalsAt _ _ _ _) as [[r|] st']; exact H.
  - unfold post_scan_email. destruct (negb _); [exact Hst|].
    match goal with |- context [scanLinks w st ?ls] =>
      destruct (scanLinks_sound w st ls Hst) as [H _];
      destruct (scanLinks w st ls) as [promises st'] end.
    destruct (Promise_all promises); exact H.
Qed.

(** X12. From a sound cache every 200 response of [POST /scan], computed or
    served from the cache, carries the verdict its score maps to
    ([malicious] from 70, [suspicious] from 40) and a score that is an
    integer from 0 to 100 or [NaN]. *)
Theorem scan_response_is_sound (w : World) (st : Server) (req : ScanRequest) :
  cacheSound (cache st) ->
  match json (fst (post_scan w st req)) with
  | ScanBody ok aggregated => ok = true /\ soundScore aggregated
  | EmailBody _ _ _ _ => False
  | ErrorBody _ _ => status (fst (post_scan w st req)) = 400
  end.
Proof.
  intros Hst. unfold post_scan.
  destruct (truthy_str (req_url req)); cbn [negb]; [|reflexivity].
  destruct (aggregateSignalsAt_sound w (cache st) st (scanTarget req) Hst Hst) as [_ H].
  fold (aggregateSignals w st (scanTarget req)) in H.
  destruct (cache_get (now w) (cache st) (cacheKey (scanTarget req))) as [c|] eqn:Hc.
  - rewrite (aggregateSignals_hit _ _ _ _ Hc) in *. cbn [fst json] in *.
    split; [reflexivity | now apply H].
  - destruct (aggregateSignals_miss _ _ _ Hc) as (r & _ & _ & _ & E).
    rewrite E in *. cbn [fst json] in *. split; [reflexivity | now apply H].
Qed.

(** *** Header and body analysis *)

Lemma authStep_points lowerHeaders passMark failMark passDelta failDelta score :
  fst (authStep lowerHeaders passMark failMark passDelta failDelta score)
  = score + markPoints (snd (authStep lowerHeaders passMark failMark
                               passDelta failDelta score)) passDelta failDelta.
Proof.
  unfold authStep. destruct (includes lowerHeaders passMark); [simpl; lia|].
  destruct (includes lowerHeaders failMark); simpl; lia.
Qed.

(** X13. The header score is determined by the report: for a non-empty
    header text it is the sum of the report's marks (SPF -15/+25, DKIM
    -10/+20, DMARC -5/+25, mismatch +20) floored at 0, hence between 0 and
    90; a missing or empty header text scores 10 with an all-neutral
    report, more than a header text without any marker, which scores 0. *)
Theorem analyzeHeaders_score_of_report (headersText : option string) :
  (truthy_str headersText = true ->
   fst (analyzeHeaders headersText) = reportPoints (snd (analyzeHeaders headersText))) /\
  (truthy_str headersText = false ->
   analyzeHeaders headersText
   = (10, {| rep_spf := neutral; rep_dkim := neutral; rep_dmarc := neutral;
             mismatch_from_return := false |})) /\
  0 <= fst (analyzeHeaders headersText) <= 90.
Proof.
  unfold analyzeHeaders.
  destruct (truthy_str headersText); cbn [negb];
    (split; [intros H; try discriminate | split; [intros H; try discriminate|]]);
    try reflexivity; try (simpl; lia).
  - set (lowerHeaders := toLowerCase P (or_empty headersText)).
    pose proof (authStep_points lowerHeaders "spf=pass" "spf=fail" 15 25 0) as H1.
    destruct (authStep lowerHeaders "spf=pass" "spf=fail" 15 25 0) as [s1 m1].
    pose proof (authStep_points lowerHeaders "dkim=pass" "dkim=fail" 10 20 s1) as H2.
    destruct (authStep lowerHeaders "dkim=pass" "dkim=fail" 10 20 s1) as [s2 m2].
    pose proof (authStep_points lowerHeaders "dmarc=pass" "dmarc=fail" 5 25 s2) as H3.
    destruct (authStep lowerHeaders "dmarc=pass" "dmarc=fail" 5 25 s2) as [s3 m3].
    cbn [fst snd] in *. unfold reportPoints.
    cbn [rep_spf rep_dkim rep_dmarc mismatch_from_return].
    match goal with |- context [if ?b then _ else _] => destruct b end; lia.
  - set (lowerHeaders := toLowerCase P (or_empty headersText)).
    pose proof (authStep_points lowerHeaders "spf=pass" "spf=fail" 15 25 0) as H1.
    destruct (authStep lowerHeaders "spf=pass" "spf=fail" 15 25 0) as [s1 m1].
    pose proof (authStep_points lowerHeaders "dkim=pass" "dkim=fail" 10 20 s1) as H2.
    destruct (authStep lowerHeaders "dkim=pass" "dkim=fail" 10 20 s1) as [s2 m2].
    pose proof (authStep_points lowerHeaders "dmarc=pass" "dmarc=fail" 5 25 s2) as H3.
    destruct (authStep lowerHeaders "dmarc=pass" "dmarc=fail" 5 25 s2) as [s3 m3].
    cbn [fst snd] in *.
    match goal with |- context [if ?b then _ else _] => destruct b end;
      destruct m1, m2, m3; cbn [markPoints] in *; lia.
Qed.

Lemma analyzeBody_fold (lowerBody : string) (ks : list string) (acc : Z * list string) :
  fold_left
    (fun acc keyword =>
       if includes lowerBody keyword then (fst acc + 8, snd acc ++ [keyword]) else acc)
    ks acc
  = (fst acc + 8 * Z.of_nat (length (List.filter (includes lowerBody) ks)),
     snd acc ++ List.filter (includes lowerBody) ks).
Proof.
  revert acc. induction ks as [|k ks IH]; intros [s f]; cbn [fold_left List.filter].
  - cbn [fst snd length]. now rewrite Z.add_0_r, app_nil_r.
  - rewrite IH. destruct (includes lowerBody k); cbn [fst snd length].
    + rewrite <- app_assoc. f_equal. lia.
    + reflexivity.
Qed.

(** X14. The keywords reported for a body are exactly the urgency keywords
    its lower-cased text contains, each once and in the order of the list,
    and the body score is 8 times their number, at most 64; a missing body
    scores 0 with no keyword. *)
Theorem analyzeBody_counts_keywords (bodyText : option string) :
  snd (analyzeBody bodyText)
  = (if truthy_str bodyText
     then List.filter (includes (toLowerCase P (or_empty bodyText))) urgencyKeywords
     else []) /\
  fst (analyzeBody bodyText) = 8 * Z.of_nat (length (snd (analyzeBody bodyText))) /\
  0 <= fst (analyzeBody bodyText) <= 64.
Proof.
  unfold analyzeBody. destruct (truthy_str bodyText); cbn [negb].
  - rewrite analyzeBody_fold. cbn [fst snd app]. split; [reflexivity|].
    split; [lia|].
    pose proof (filter_length_le (includes (toLowerCase P (or_empty bodyText)))
                  urgencyKeywords) as Hl.
    change (length urgencyKeywords) with 8%nat in Hl. lia.
  - cbn. repeat split; lia.
Qed.

(** *** The email score *)

Lemma analyzeHeaders_at_most_90 (headersText : option string) :
  fst (analyzeHeaders headersText) <= 90.
Proof.
  unfold analyzeHeaders. destruct (negb (truthy_str headersText)); [simpl; lia|].
  set (lowerHeaders := toLowerCase P (or_empty headersText)).
  pose proof (authStep_points lowerHeaders "spf=pass" "spf=fail" 15 25 0) as H1.
  destruct (authStep lowerHeaders "spf=pass" "spf=fail" 15 25 0) as [s1 m1].
  pose proof (authStep_points lowerHeaders "dkim=pass" "dkim=fail" 10 20 s1) as H2.
  destruct (authStep lowerHeaders "dkim=pass" "dkim=fail" 10 20 s1) as [s2 m2].
  pose proof (authStep_points lowerHeaders "dmarc=pass" "dmarc=fail" 5 25 s2) as H3.
  destruct (authStep lowerHeaders "dmarc=pass" "dmarc=fail" 5 25 s2) as [s3 m3].
  cbn [fst snd] in *.
  match goal with |- context [if ?b then _ else _] => destruct b end;
    destruct m1, m2, m3; cbn [markPoints] in *; lia.
Qed.

Lemma analyzeBody_at_most_64 (bodyText : option string) : fst (analyzeBody bodyText) <= 64.
Proof.
  unfold analyzeBody. destruct (negb (truthy_str bodyText)); [simpl; lia|].
  rewrite analyzeBody_fold. cbn [fst].
  pose proof (filter_length_le (includes (toLowerCase P (or_empty bodyText)))
                urgencyKeywords) as Hl.
  change (length urgencyKeywords) with 8%nat in Hl. lia.
Qed.

(** The email score as an integer: the blend rounded to the nearest
    integer, or 100 when the blend reaches 100. *)
Lemma emailScore_value (headerScore bodyScore : Z) (l : Q) :
  let x := (inject_Z headerScore * (2 # 5) + inject_Z bodyScore * (1 # 5)
            + l * (2 # 5))%Q in
  exists z, emailScore headerScore bodyScore (Num l) = ofZ z /\
    ((x < 100)%Q -> z = Qfloor (x + (1 # 2))) /\ ((100 <= x)%Q -> z = 100).
Proof.
  intros x. unfold emailScore, ofZ. cbn [mul add]. fold x. fold (ofZ 100).
  unfold Math_min, ofZ, lt. destruct (Qltb x (inject_Z 100)) eqn:E.
  - apply Qltb_true in E. change (inject_Z 100) with 100%Q in E.
    eexists. split; [reflexivity|]. split; [reflexivity | lra].
  - apply Qltb_false in E. change (inject_Z 100) with 100%Q in E.
    exists 100. split; [reflexivity|]. split; [lra | reflexivity].
Qed.

Lemma Qfloor_at_least (k : Z) (x : Q) : k <= Qfloor x -> (inject_Z k <= x)%Q.
Proof.
  intros H. eapply Qle_trans; [|apply Qfloor_le]. now rewrite <- Zle_Qle.
Qed.

Lemma Qfloor_nonneg (x : Q) : (0 <= x)%Q -> 0 <= Qfloor x.
Proof. intros H. apply (Qfloor_resp_le 0 x H). Qed.

Lemma Qfloor_below (k : Z) (x : Q) : (x < inject_Z k)%Q -> Qfloor x < k.
Proof.
  intros H. destruct (Z.lt_ge_cases (Qfloor x) k) as [|Hge]; [assumption|].
  apply Qfloor_at_least in Hge. lra.
Qed.

Lemma emailVerdict_ofZ (z : Z) :
  emailVerdict (ofZ z)
  = if 80 <=? z then malicious else if 50 <=? z then suspicious else safe.
Proof.
  unfold emailVerdict, MALICIOUS_THRESHOLD, SUSPICIOUS_THRESHOLD. now rewrite !ge_ofZ.
Qed.

(** X15. Headers and body alone never make an email suspicious.  In every
    200 response of [POST /scan-email], a verdict other than [safe] means
    that some link scored at least 1.75 (so at least 2), and the verdict
    [malicious] means that some link scored at least 76.75 (so at least
    77): the header and body points contribute at most 48.8 to the blend. *)
Theorem email_verdict_needs_a_link (w : World) (st : Server) (req : EmailRequest) :
  match json (fst (post_scan_email w st req)) with
  | EmailBody _ verdict _ breakdown =>
      (verdict <> safe ->
       ge (highestLinkScore (linkAnalysis breakdown)) (Num (7 # 4)) = true) /\
      (verdict = malicious ->
       ge (highestLinkScore (linkAnalysis breakdown)) (Num (307 # 4)) = true)
  | _ => True
  end.
Proof.
  unfold post_scan_email. destruct (negb (truthy_str (body req))); [exact I|].
  destruct (scanLinks w st _) as [promises st'].
  destruct (Promise_all promises) as [linkResults|]; [|exact I].
  cbn [fst json linkAnalysis].
  pose proof (analyzeHeaders_nonneg (headers req)) as Hh0.
  pose proof (analyzeHeaders_at_most_90 (headers req)) as Hh1.
  pose proof (analyzeBody_nonneg (body req)) as Hb0.
  pose proof (analyzeBody_at_most_64 (body req)) as Hb1.
  pose proof (worstLink_atLeastZero linkResults) as Hl.
  destruct (highestLinkScore (worstLink linkResults)) as [l | | |];
    try contradiction; [|split; reflexivity].
  destruct (emailScore_value (fst (analyzeHeaders (headers req)))
              (fst (analyzeBody (body req))) l) as (z & -> & Hlt & Hge).
  rewrite emailVerdict_ofZ. unfold ge, le. rewrite !Qle_bool_iff.
  rewrite Zle_Qle in Hh0, Hh1, Hb0, Hb1.
  change (inject_Z 0) with 0%Q in *. change (inject_Z 90) with 90%Q in *.
  change (inject_Z 64) with 64%Q in *.
  set (h := inject_Z (fst (analyzeHeaders (headers req)))) in *.
  set (b := inject_Z (fst (analyzeBody (body req)))) in *.
  destruct (Qlt_le_dec (h * (2 # 5) + b * (1 # 5) + l * (2 # 5)) 100) as [Hx | Hx].
  - specialize (Hlt Hx). clear Hge. split.
    + intros Hv. assert (H50 : 50 <= z).
      { destruct (Z.leb_spec 80 z); [lia|].
        destruct (Z.leb_spec 50 z); [lia | contradiction]. }
      subst z. apply Qfloor_at_least in H50. change (inject_Z 50) with 50%Q in H50. lra.
    + intros Hv. assert (H80 : 80 <= z).
      { destruct (Z.leb_spec 80 z); [lia|].
        destruct (Z.leb_spec 50 z); discriminate. }
      subst z. apply Qfloor_at_least in H80. change (inject_Z 80) with 80%Q in H80. lra.
  - split; intros _; lra.
Qed.

(** X16. An email without links is always rated [safe], with a score of at
    most 49, whatever its headers and body say; nothing is looked up and
    the server is left as it was. *)
Theorem email_without_links_is_safe (w : World) (st : Server) (req : EmailRequest) :
  truthy_str (body req) = true ->
  links req = None \/ links req = Some [] ->
  exists z, 0 <= z <= 49 /\
    post_scan_email w st req
    = ({| status := 200;
          json := EmailBody true safe (ofZ z)
                    {| headerAnalysis := snd (analyzeHeaders (headers req));
                       bodyAnalysis_keywords := snd (analyzeBody (body req));
                       linkAnalysis := {| highestLinkScore := ofZ 0;
                                          mostMaliciousLink := None |};
                       breakdown_finalScore := ofZ z |} |}, st).
Proof.
  intros Hb Hl. unfold post_scan_email. rewrite Hb. cbn [negb].
  assert (E : match links req with Some ls => ls | None => [] end = []).
  { now destruct Hl as [-> | ->]. }
  rewrite E. cbn [scanLinks fold_left Promise_all worstLink highestLinkScore].
  pose proof (analyzeHeaders_nonneg (headers req)) as Hh0.
  pose proof (analyzeHeaders_at_most_90 (headers req)) as Hh1.
  pose proof (analyzeBody_nonneg (body req)) as Hb0.
  pose proof (analyzeBody_at_most_64 (body req)) as Hb1.
  destruct (emailScore_value (fst (analyzeHeaders (headers req)))
              (fst (analyzeBody (body req))) (inject_Z 0)) as (z & Ez & Hlt & _).
  fold (ofZ 0) in Ez. rewrite Ez.
  rewrite Zle_Qle in Hh0, Hh1, Hb0, Hb1.
  change (inject_Z 0) with 0%Q in *. change (inject_Z 90) with 90%Q in *.
  change (inject_Z 64) with 64%Q in *.
  set (h := inject_Z (fst (analyzeHeaders (headers req)))) in *.
  set (b := inject_Z (fst (analyzeBody (body req)))) in *.
  assert (Hz : 0 <= z <= 49).
  { rewrite Hlt by lra. split.
    - apply Qfloor_nonneg. lra.
    - apply Z.lt_succ_r. apply Qfloor_below. change (inject_Z (Z.succ 49)) with 50%Q. lra. }
  exists z. split; [exact Hz|]. rewrite emailVerdict_ofZ.
  destruct (Z.leb_spec 80 z); [lia|]. destruct (Z.leb_spec 50 z); [lia|]. reflexivity.
Qed.

Lemma worstLink_sound (linkResults : list ScanResult) :
  Forall soundScore linkResults ->
  exists l, highestLinkScore (worstLink linkResults) = Num l /\ (0 <= l <= 100)%Q.
Proof.
  intros Hall. unfold worstLink.
  assert (H : forall rs acc,
            Forall soundScore rs ->
            (exists l, highestLinkScore acc = Num l /\ (0 <= l <= 100)%Q) ->
            exists l, highestLinkScore (fold_left pickHigher rs acc) = Num l
                      /\ (0 <= l <= 100)%Q).
  { induction rs as [|r rs IH]; intros acc Hrs Hacc; cbn [fold_left]; [exact Hacc|].
    inversion Hrs as [|? ? [_ Hr] Hrest]; subst. apply IH; [exact Hrest|].
    destruct Hacc as (l & Hl & Hbound). unfold pickHigher. rewrite Hl.
    destruct Hr as [-> | Hs]; [cbn; eauto|].
    destruct (r_score r) as [q | | |]; try contradiction.
    destruct Hs as (z & Hz & Hq). unfold gt, lt.
    destruct (Qltb l q); cbn [highestLinkScore]; [|eauto].
    exists q. split; [reflexivity|]. rewrite Hq.
    destruct Hz as [Hz0 Hz1]. rewrite Zle_Qle in Hz0, Hz1.
    change (inject_Z 0) with 0%Q in Hz0. change (inject_Z 100) with 100%Q in Hz1. lra. }
  apply H; [exact Hall|]. exists (inject_Z 0). split; [reflexivity|].
  change (inject_Z 0) with 0%Q. lra.
Qed.

Lemma Promise_all_Forall {A} (Q : A -> Prop) (outcomes : list (outcome A)) (xs : list A) :
  Forall (fun o => forall x, o = Return x -> Q x) outcomes ->
  Promise_all outcomes = Return xs -> Forall Q xs.
Proof.
  revert xs. induction outcomes as [|o os IH]; intros xs Hall; cbn [Promise_all].
  - intros [= <-]. constructor.
  - inversion Hall as [|? ? Ho Hos]; subst.
    destruct o as [a|]; cbn [bind]; [|discriminate].
    destruct (Promise_all os) as [others|]; cbn [bind]; [|discriminate].
    intros [= <-]. constructor; [now apply Ho | now apply IH].
Qed.

(** X17. From a sound cache the score of an email never exceeds 89: header
    points are at most 90, body points at most 64 and the highest link
    score at most 100, and 36 + 12.8 + 40 rounds to 89. *)
Theorem email_score_at_most_89 (w : World) (st : Server) (req : EmailRequest) :
  cacheSound (cache st) ->
  match json (fst (post_scan_email w st req)) with
  | EmailBody _ _ score _ => exists z, score = ofZ z /\ 0 <= z <= 89
  | _ => True
  end.
Proof.
  intros Hst. unfold post_scan_email. destruct (negb (truthy_str (body req))); [exact I|].
  match goal with |- context [scanLinks w st ?ls] =>
    destruct (scanLinks_sound w st ls Hst) as [_ Hres];
    destruct (scanLinks w st ls) as [promises st'] end.
  cbn [fst] in Hres.
  destruct (Promise_all promises) as [linkResults|] eqn:Hall; [|exact I].
  cbn [fst json].
  destruct (worstLink_sound linkResults (Promise_all_Forall _ _ _ Hres Hall))
    as (l & -> & Hl0 & Hl1).
  pose proof (analyzeHeaders_nonneg (headers req)) as Hh0.
  pose proof (analyzeHeaders_at_most_90 (headers req)) as Hh1.
  pose proof (analyzeBody_nonneg (body req)) as Hb0.
  pose proof (analyzeBody_at_most_64 (body req)) as Hb1.
  destruct (emailScore_value (fst (analyzeHeaders (headers req)))
              (fst (analyzeBody (body req))) l) as (z & -> & Hlt & _).
  rewrite Zle_Qle in Hh0, Hh1, Hb0, Hb1.
  change (inject_Z 0) with 0%Q in *. change (inject_Z 90) with 90%Q in *.
  change (inject_Z 64) with 64%Q in *.
  set (h := inject_Z (fst (analyzeHeaders (headers req)))) in *.
  set (b := inject_Z (fst (analyzeBody (body req)))) in *.
  exists z. split; [reflexivity|]. rewrite Hlt by lra. split.
  - apply Qfloor_nonneg. lra.
  - apply Z.lt_succ_r. apply Qfloor_below. change (inject_Z (Z.succ 89)) with 90%Q. lra.
Qed.

(** *** The most malicious link *)

Lemma lt_le_trans (a b c : number) : lt a b = true -> le b c = true -> lt a c = true.
Proof.
  destruct a as [x | | |], b as [y | | |], c as [z | | |]; simpl;
    try discriminate; try reflexivity.
  rewrite !Qltb_true, Qle_bool_iff. intros. lra.
Qed.

Lemma lt_irrefl (a : number) : lt a a = false.
Proof.
  destruct a as [x | | |]; simpl; try reflexivity. apply Qltb_false. lra.
Qed.

Lemma lt_le_weak (a b : number) : lt a b = true -> le a b = true.
Proof.
  destruct a as [x | | |], b as [y | | |]; simpl; try discriminate; try reflexivity.
  rewrite Qltb_true, Qle_bool_iff. intros. lra.
Qed.

Lemma not_ge_above (s x y : number) :
  lt s x = true -> lt s y = false -> le x y = false.
Proof.
  intros Hsx Hsy. destruct (le x y) eqn:E; [|reflexivity].
  now rewrite (lt_le_trans _ _ _ Hsx E) in Hsy.
Qed.

Lemma pickHigher_firstHighest (rs : list ScanResult) (acc : LinkAnalysis) (x : ScanResult) :
  firstHighest rs acc -> firstHighest (rs ++ [x]) (pickHigher acc x).
Proof.
  unfold firstHighest, pickHigher.
  destruct (mostMaliciousLink acc) as [[u s]|] eqn:Em.
  - intros (Hh & Hpos & pre & r & post & -> & Hu & Hs & Hpre & Hpost).
    rewrite Hh. destruct (gt (r_score x) s) eqn:Hgt.
    + cbn [mostMaliciousLink highestLinkScore]. unfold gt in *.
      split; [reflexivity|]. split.
      { apply (lt_le_trans _ s); [exact Hpos | now apply lt_le_weak]. }
      exists (pre ++ r :: post), x, []. split; [reflexivity|].
      split; [reflexivity|]. split; [reflexivity|]. split; [|constructor].
      apply Forall_app. split; [|constructor].
      * eapply Forall_impl; [exact Hpre|]. intros y Hy. unfold ge in *.
        destruct (le (r_score x) (r_score y)) eqn:E; [|reflexivity].
        pose proof (lt_le_weak _ _ (lt_le_trans _ _ _ Hgt E)) as Hc. congruence.
      * unfold ge. rewrite Hs. destruct (le (r_score x) s) eqn:E; [|reflexivity].
        pose proof (lt_le_trans _ _ _ Hgt E) as Hc. now rewrite lt_irrefl in Hc.
      * eapply Forall_impl; [exact Hpost|]. intros y Hy. unfold ge.
        now apply (not_ge_above s).
    + rewrite Em. split; [exact Hh|]. split; [exact Hpos|].
      exists pre, r, (post ++ [x]). rewrite <- app_assoc. split; [reflexivity|].
      split; [exact Hu|]. split; [exact Hs|]. split; [exact Hpre|].
      apply Forall_app. split; [exact Hpost | constructor; [exact Hgt | constructor]].
  - intros (Hh & Hall). rewrite Hh. destruct (gt (r_score x) (ofZ 0)) eqn:Hgt.
    + cbn [mostMaliciousLink highestLinkScore]. split; [reflexivity|].
      split; [exact Hgt|].
      exists rs, x, []. split; [reflexivity|]. split; [reflexivity|].
      split; [reflexivity|]. split; [|constructor].
      eapply Forall_impl; [exact Hall|]. intros y Hy. unfold ge, gt in *.
      now apply (not_ge_above (ofZ 0)).
    + rewrite Em. split; [exact Hh|].
      apply Forall_app. split; [exact Hall | constructor; [exact Hgt | constructor]].
Qed.

(** X18. [mostMaliciousLink] is [null] exactly when no link scored above 0;
    otherwise it holds the URL and score of the first link whose score no
    other link exceeds (every earlier link scored strictly less or has no
    comparable score, no later link scored more), and that score is
    [highestLinkScore]. *)
Theorem most_malicious_link_is_first_highest (linkResults : list ScanResult) :
  firstHighest linkResults (worstLink linkResults).
Proof.
  unfold worstLink.
  assert (H : forall rs seen acc,
            firstHighest seen acc ->
            firstHighest (seen ++ rs) (fold_left pickHigher rs acc)).
  { induction rs as [|x rs IH]; intros seen acc Hacc; cbn [fold_left].
    - now rewrite app_nil_r.
    - replace (seen ++ x :: rs) with ((seen ++ [x]) ++ rs) by now rewrite <- app_assoc.
      apply IH. now apply pickHigher_firstHighest. }
  apply (H linkResults [] {| highestLinkScore := ofZ 0; mostMaliciousLink := None |}).
  split; [reflexivity | constructor].
Qed.

(** *** The endpoints never answer 500 *)

Lemma aggregateSignalsAt_returns w seen st target :
  exists r, fst (aggregateSignalsAt w seen st target) = Return r.
Proof.
  unfold aggregateSignalsAt.
  destruct (cache_get (now w) seen (cacheKey target)) as [c|]; [cbn; eauto|].
  match goal with |- context [scoreSignals ?t ?a ?b ?c ?d] =>
    destruct (scoreSignals_returns t a b c d) as [r ->] end.
  cbn. eauto.
Qed.

Lemma scanLinks_return w st ls :
  Forall (fun o => exists r, o = Return r) (fst (scanLinks w st ls)).
Proof.
  unfold scanLinks.
  assert (H : forall ls acc,
            Forall (fun o => exists r : ScanResult, o = Return r) (fst acc) ->
            Forall (fun o => exists r : ScanResult, o = Return r)
              (fst (fold_left
                      (fun acc link =>
                         let '(r, st') :=
                           aggregateSignalsAt w (cache st) (snd acc)
                             {| url := href link; anchorText := link_anchorText link;
                                senderDomain := None |} in
                         (fst acc ++ [r], st')) ls acc))).
  { clear ls. induction ls as [|l ls IH]; intros acc Hf; cbn [fold_left]; [exact Hf|].
    apply IH.
    destruct (aggregateSignalsAt_returns w (cache st) (snd acc)
                {| url := href l; anchorText := link_anchorText l;
                   senderDomain := None |}) as [r Hr].
    destruct (aggregateSignalsAt _ _ _ _) as [o st']. cbn [fst] in *. subst o.
    apply Forall_app. split; [exact Hf | constructor; [eauto | constructor]]. }
  apply (H ls ([], st)). constructor.
Qed.

Lemma Promise_all_returns {A} (outcomes : list (outcome A)) :
  Forall (fun o => exists r, o = Return r) outcomes ->
  exists rs, Promise_all outcomes = Return rs.
Proof.
  induction 1 as [|o os [r ->] _ [rs IH]]; cbn [Promise_all bind]; [eauto|].
  rewrite IH. cbn [bind]. eauto.
Qed.

(** X19. On requests of the documented shape neither endpoint answers 500:
    [POST /scan] answers 200 when [url] is given and 400 otherwise,
    [POST /scan-email] answers 200 when [body] is given and 400 otherwise,
    whatever the lookups answer, because every failure of a lookup or of
    a URL parse is caught where it occurs. *)
Theorem endpoints_answer_200_or_400 (w : World) (st : Server) (req : ScanRequest)
    (ereq : EmailRequest) :
  status (fst (post_scan w st req)) = (if truthy_str (req_url req) then 200 else 400) /\
  status (fst (post_scan_email w st ereq))
  = (if truthy_str (body ereq) then 200 else 400).
Proof.
  split.
  - unfold post_scan. destruct (truthy_str (req_url req)); cbn [negb]; [|reflexivity].
    destruct (aggregateSignalsAt_returns w (cache st) st (scanTarget req)) as [r Hr].
    unfold aggregateSignals. destruct (aggregateSignalsAt _ _ _ _) as [o st'].
    cbn [fst] in Hr. now subst o.
  - unfold post_scan_email. destruct (truthy_str (body ereq)); cbn [negb]; [|reflexivity].
    match goal with |- context [scanLinks w st ?ls] =>
      pose proof (scanLinks_return w st ls) as Hres;
      destruct (scanLinks w st ls) as [promises st'] end.
    cbn [fst] in Hres. destruct (Promise_all_returns promises Hres) as [rs ->].
    reflexivity.
Qed.

(** *** Where the extension posts an email scan *)

Lemma prefix_app_long (p a x : string) :
  (String.length p <= String.length a)%nat ->
  String.prefix p (a ++ x) = String.prefix p a.
Proof.
  revert a. induction p as [|c p IH]; intros a Hlen.
  - now destruct a, x.
  - destruct a as [|d a]; [simpl in Hlen; lia|].
    change (String.prefix (String c p) (String d a ++ x))
      with (if ascii_dec c d then String.prefix p (a ++ x) else false).
    change (String.prefix (String c p) (String d a))
      with (if ascii_dec c d then String.prefix p a else false).
    destruct (ascii_dec c d); [|reflexivity].
    apply IH. simpl in Hlen. lia.
Qed.

Lemma remove_first_at (pre post : string) :
  includes (pre ++ "/sca") "/scan" = false ->
  remove_first "/scan" (pre ++ "/scan" ++ post) = (pre ++ post)%string.
Proof.
  induction pre as [|c pre IH]; intros H; [now destruct post|].
  change (includes (String c pre ++ "/sca") "/scan")
    with (String.prefix "/scan" (String c (pre ++ "/sca"))
          || includes (pre ++ "/sca") "/scan") in H.
  apply orb_false_iff in H as [Hp Hi].
  change (remove_first "/scan" (String c pre ++ "/scan" ++ post))
    with (if String.prefix "/scan" (String c (pre ++ "/scan" ++ post))
          then skip (String.length "/scan") (String c (pre ++ "/scan" ++ post))
          else String c (remove_first "/scan" (pre ++ "/scan" ++ post))).
  assert (E : String c (pre ++ "/scan" ++ post)
              = (String c (pre ++ "/sca") ++ ("n" ++ post))%string).
  { change (String c (pre ++ "/sca") ++ ("n" ++ post))%string
      with (String c ((pre ++ "/sca") ++ ("n" ++ post)))%string.
    now rewrite string_app_assoc. }
  rewrite E at 1. rewrite prefix_app_long, Hp.
  - rewrite (IH Hi). reflexivity.
  - change (String.length (String c (pre ++ "/sca")))
      with (S (String.length (pre ++ "/sca"))).
    rewrite string_length_app. simpl. lia.
Qed.

(** X20. The extension derives the email endpoint by removing the first
    occurrence of ["/scan"] from the configured backend URL and appending
    ["/scan-email"].  When the URL ends in its first ["/scan"] this is the
    sibling endpoint; when ["/scan"] occurs earlier (a host that begins
    with "scan", say), that earlier occurrence is what is cut out. *)
Theorem emailEndpoint_removes_first_scan (pre post : string) :
  includes (pre ++ "/sca") "/scan" = false ->
  emailEndpoint (Some (pre ++ "/scan" ++ post)%string)
  = (pre ++ post ++ "/scan-email")%string.
Proof.
  intros H. unfold emailEndpoint, backendUrl_or_default.
  assert (Ht : truthy_str (Some (pre ++ "/scan" ++ post)%string) = true).
  { destruct pre; reflexivity. }
  rewrite Ht. cbn [or_empty]. rewrite (remove_first_at pre post H).
  apply string_app_assoc.
Qed.

(** *** [POST /feedback] only appends *)

Lemma keep_skip (n : nat) (s : string) : (keep n s ++ skip n s)%string = s.
Proof.
  revert s. induction n as [|n IH]; intros [|c s]; try reflexivity.
  change (String c (keep n s ++ skip n s) = String c s)%string. now rewrite IH.
Qed.

Lemma join_empty_snoc (pieces : list string) (piece : string) :
  join_empty (pieces ++ [piece]) = (join_empty pieces ++ piece)%string.
Proof.
  induction pieces as [|x pieces IH]; cbn [join_empty fold_right app].
  - apply string_app_nil.
  - fold (join_empty (pieces ++ [piece])). fold (join_empty pieces).
    rewrite IH. now rewrite string_app_assoc.
Qed.

Lemma written_by_snoc (id i : nat) (pieces : list (nat * string)) (piece : string) :
  written_by id (pieces ++ [(i, piece)])
  = (written_by id pieces ++ if Nat.eqb i id then piece else EmptyString)%string.
Proof.
  induction pieces as [|[j x] pieces IH]; cbn [written_by app].
  - destruct (Nat.eqb i id); [apply string_app_nil | reflexivity].
  - rewrite IH. destruct (Nat.eqb j id); [now rewrite string_app_assoc | reflexivity].
Qed.

Lemma handled_waiting JSON_stringify iso_time req written rest :
  handled JSON_stringify iso_time req written (Appending rest) ->
  truthy_str (fb_url req) && truthy_str (fb_verdict req) = true /\
  (written ++ rest)%string = feedbackLine JSON_stringify (feedbackEntry iso_time req).
Proof.
  unfold handled. destruct (truthy_str (fb_url req) && truthy_str (fb_verdict req)).
  - auto.
  - intros [H _]. discriminate.
Qed.

Lemma feedbackStep_inv JSON_stringify arr file ev st st' :
  feedbackInv JSON_stringify arr file st ->
  feedbackStep JSON_stringify ev st = Some st' ->
  feedbackInv JSON_stringify (arr ++ arrivals [ev]) file st'.
Proof.
  intros (Hfile & Hlen & Hnone & Hall) Hstep.
  destruct ev as [iso_time req | id n | id | id]; cbn [feedbackStep arrivals] in Hstep.
  - injection Hstep as <-. split; [exact Hfile|]. cbn [handlers appended].
    split; [rewrite !length_app, Hlen; reflexivity|]. split.
    + intros id Hid. apply Hnone. rewrite length_app in Hid. simpl in Hid. lia.
    + intros id t r h Harr Hh.
      destruct (Nat.lt_ge_cases id (length arr)) as [Hlt | Hge].
      * rewrite lookup_app_l in Harr by exact Hlt.
        rewrite lookup_app_l in Hh by (rewrite Hlen; exact Hlt).
        exact (Hall id t r h Harr Hh).
      * rewrite lookup_app_r in Harr by exact Hge.
        rewrite lookup_app_r in Hh by (rewrite Hlen; exact Hge).
        rewrite Hlen in Hh.
        destruct (id - length arr)%nat as [|k]; [|destruct k; discriminate].
        injection Harr as <- <-. injection Hh as <-.
        rewrite (Hnone id Hge). unfold handled, post_feedback.
        destruct (truthy_str (fb_url req)), (truthy_str (fb_verdict req));
          cbn [negb orb andb]; auto.
  - rewrite app_nil_r.
    destruct (handlers st !! id) as [[rest | resp]|] eqn:Hid; try discriminate.
    injection Hstep as <-. unfold feedbackInv. cbn [feedback_json handlers appended].
    pose proof (lookup_lt_Some _ _ _ Hid) as Hlt.
    split; [|split; [|split]].
    + rewrite map_app. cbn [map snd]. rewrite join_empty_snoc, Hfile.
      apply string_app_assoc.
    + now rewrite length_insert.
    + intros j Hj. rewrite written_by_snoc, (Hnone j Hj).
      destruct (Nat.eqb_spec id j) as [-> | _]; [lia | reflexivity].
    + intros j t r h Harr Hh. rewrite written_by_snoc.
      destruct (Nat.eqb_spec id j) as [<- | Hne].
      * rewrite list_lookup_insert_eq in Hh by exact Hlt. injection Hh as <-.
        destruct (handled_waiting _ _ _ _ _ (Hall id t r _ Harr Hid)) as [Hv Hw].
        unfold handled. rewrite Hv. rewrite string_app_assoc, keep_skip. exact Hw.
      * rewrite list_lookup_insert_ne in Hh by exact Hne.
        rewrite string_app_nil. exact (Hall j t r h Harr Hh).
  - rewrite app_nil_r.
    destruct (handlers st !! id) as [[[|c rest] | resp]|] eqn:Hid; try discriminate.
    injection Hstep as <-. unfold feedbackInv. cbn [feedback_json handlers appended].
    pose proof (lookup_lt_Some _ _ _ Hid) as Hlt.
    split; [exact Hfile|]. split; [now rewrite length_insert|]. split; [exact Hnone|].
    intros j t r h Harr Hh.
    destruct (Nat.eq_dec id j) as [<- | Hne].
    + rewrite list_lookup_insert_eq in Hh by exact Hlt. injection Hh as <-.
      destruct (handled_waiting _ _ _ _ _ (Hall id t r _ Harr Hid)) as [Hv Hw].
      unfold handled. rewrite Hv. left. split; [reflexivity|].
      now rewrite string_app_nil in Hw.
    + rewrite list_lookup_insert_ne in Hh by exact Hne. exact (Hall j t r h Harr Hh).
  - rewrite app_nil_r.
    destruct (handlers st !! id) as [[rest | resp]|] eqn:Hid; try discriminate.
    injection Hstep as <-. unfold feedbackInv. cbn [feedback_json handlers appended].
    pose proof (lookup_lt_Some _ _ _ Hid) as Hlt.
    split; [exact Hfile|]. split; [now rewrite length_insert|]. split; [exact Hnone|].
    intros j t r h Harr Hh.
    destruct (Nat.eq_dec id j) as [<- | Hne].
    + rewrite list_lookup_insert_eq in Hh by exact Hlt. injection Hh as <-.
      destruct (handled_waiting _ _ _ _ _ (Hall id t r _ Harr Hid)) as [Hv Hw].
      unfold handled. rewrite Hv. right. split; [reflexivity|]. now exists rest.
    + rewrite list_lookup_insert_ne in Hh by exact Hne. exact (Hall j t r h Harr Hh).
Qed.

Lemma arrivals_cons (ev : Event) (events : list Event) :
  arrivals (ev :: events) = arrivals [ev] ++ arrivals events.
Proof. destruct ev; reflexivity. Qed.

Lemma feedbackRun_inv JSON_stringify events arr file st st' :
  feedbackInv JSON_stringify arr file st ->
  feedbackRun JSON_stringify events st = Some st' ->
  feedbackInv JSON_stringify (arr ++ arrivals events) file st'.
Proof.
  revert arr st. induction events as [|ev events IH]; intros arr st Hinv Hrun.
  - injection Hrun as <-. cbn [arrivals]. now rewrite app_nil_r.
  - cbn [feedbackRun] in Hrun.
    destruct (feedbackStep JSON_stringify ev st) as [st1|] eqn:Hstep; [|discriminate].
    rewrite arrivals_cons, app_assoc.
    exact (IH _ st1 (feedbackStep_inv _ _ _ _ _ _ Hinv Hstep) Hrun).
Qed.

(** X21. [POST /feedback] only ever appends to [feedback.json], also when
    requests overlap and when an append fails part-way.  After any
    schedule of arrivals, writes and settlements, the file is what was
    found at the start followed by the pieces the appends have written, in
    the order they were written.  Of the requests that arrived, one without
    [url] or [verdict] has been answered 400 and has written nothing; any
    other has written a beginning of its line
    [JSON.stringify(entry) + '\n'], and the whole of it once it is
    answered [{ ok: true }]; the only other answer is the 500 of a
    rejected append, which may have written any part of the line. *)
Theorem feedback_only_appends (JSON_stringify : FeedbackEntry -> string)
    (events : list Event) (file : string) (st : FeedbackServer) :
  feedbackRun JSON_stringify events (feedbackStart file) = Some st ->
  feedback_json st = (file ++ join_empty (map snd (appended st)))%string /\
  length (handlers st) = length (arrivals events) /\
  forall id iso_time req h,
    arrivals events !! id = Some (iso_time, req) -> handlers st !! id = Some h ->
    let line := feedbackLine JSON_stringify (feedbackEntry iso_time req) in
    let written := written_by id (appended st) in
    if truthy_str (fb_url req) && truthy_str (fb_verdict req) then
      match h with
      | Appending rest => (written ++ rest)%string = line
      | Answered resp =>
          (resp = {| fb_status := 200; fb_json := FeedbackOk |} /\ written = line)
          \/ (resp = {| fb_status := 500;
                        fb_json := FeedbackError (Some false) "feedback_failed" |}
              /\ exists rest, (written ++ rest)%string = line)
      end
    else
      h = Answered {| fb_status := 400;
                      fb_json := FeedbackError None "missing url or verdict" |}
      /\ written = EmptyString.
Proof.
  intros Hrun.
  assert (Hstart : feedbackInv JSON_stringify [] file (feedbackStart file)).
  { split; [cbn; now rewrite string_app_nil|]. split; [reflexivity|].
    split; [reflexivity|]. intros id t r h Harr. discriminate. }
  destruct (feedbackRun_inv _ _ _ _ _ _ Hstart Hrun) as (Hfile & Hlen & _ & Hall).
  cbn [app] in Hlen, Hall. split; [exact Hfile|]. split; [exact Hlen|].
  intros id t r h Harr Hh. exact (Hall id t r h Harr Hh).
Qed.

(** *** Monotonicity of the raw score *)

Lemma finalRaw_value (s1 s2 : option Z) (heurScoreRaw : Z) (authR : DomainAuth) :
  finalRaw (option_map ofZ s1) (option_map ofZ s2) heurScoreRaw authR
  = ofZ (Z.max 0 (Z.min 100
           (match s1, s2 with
            | Some a, Some b => (4 * a + 2 * b + 3) / 6
            | Some a, None => a
            | None, Some b => b
            | None, None => 50
            end + Z.min 30 heurScoreRaw + authBonus authR))).
Proof.
  unfold finalRaw. rewrite Math_min_ofZ.
  destruct s1 as [a|], s2 as [b|]; cbn [option_map];
    rewrite ?baseScore_both, ?baseScore_ipqs_only, ?baseScore_stalkphish_only;
    try change (baseScore None None) with (ofZ 50);
    now rewrite !add_ofZ, clamp_ofZ.
Qed.

(** X22. The raw score is monotone in its inputs: raising a source score,
    or the heuristic score, with the same sources present and the same
    authentication result, never lowers the raw score. *)
Theorem worse_signals_never_lower_score (s1 s1' s2 s2' : option Z) (h h' : Z)
    (authR : DomainAuth) :
  sourceLe s1 s1' -> sourceLe s2 s2' -> h <= h' ->
  exists z z',
    finalRaw (option_map ofZ s1) (option_map ofZ s2) h authR = ofZ z /\
    finalRaw (option_map ofZ s1') (option_map ofZ s2') h' authR = ofZ z' /\
    z <= z'.
Proof.
  intros H1 H2 Hh. rewrite !finalRaw_value. do 2 eexists.
  split; [reflexivity|]. split; [reflexivity|].
  destruct s1 as [a|], s1' as [a'|], s2 as [b|], s2' as [b'|];
    cbn [sourceLe] in *; try contradiction; try lia.
  pose proof (Z.div_le_mono (4 * a + 2 * b + 3) (4 * a' + 2 * b' + 3) 6). lia.
Qed.

(** *** A DNS outage *)


End Backend.

(** ** The properties at concrete inputs *)

Import Sample.

(** C1, on the failing input.  IPQS answers
    [{ fraud_score: "n/a", malicious: true }]: the result of [callIPQS]
    carries the flag [malicious], and still [aggregateSignals] returns the
    score [NaN] with the verdict [safe], because [normalizeScore] lets the
    unreadable score through as [NaN] and [Math.max(NaN, 85)] is [NaN]. *)
Theorem override_lost_on_unreadable_score :
  let w := ipqs_flags_malicious (VString "n/a") 1000 in
  explicitMalicious (callIPQS platform keyed w (url example_target)) = true /\
  fst (aggregateSignals platform keyed w fresh example_target)
  = Return {| r_url := "http://example.com/login"; r_verdict := safe;
              r_score := NaN; r_breakdown := EmptyBreakdown; r_cached := None |}.
Proof. split; vm_compute; reflexivity. Qed.

(** The same answer with a readable score: the floor of 85 applies. *)
Example override_on_readable_score :
  fst (aggregateSignals platform keyed (ipqs_flags_malicious (VNumber (ofZ 10)) 1000)
         fresh example_target)
  = Return {| r_url := "http://example.com/login"; r_verdict := malicious;
              r_score := ofZ 85; r_breakdown := EmptyBreakdown; r_cached := None |}.
Proof. vm_compute. reflexivity. Qed.

(** C2, on the failing input.  StalkPhish answers [{ riskScore: "n/a" }]:
    [normalizeScore] returns [NaN] for it, and the score [aggregateSignals]
    returns is [NaN], which is no integer from 0 to 100. *)
Theorem url_score_not_a_number :
  let w := stalkphish_scores (VString "n/a") 1000 in
  normalizeScore platform (VString "n/a") = Some NaN /\
  (exists r, fst (aggregateSignals platform keyed w fresh example_target) = Return r
             /\ r_score r = NaN /\ ~ isScore (r_score r)).
Proof.
  split; [vm_compute; reflexivity|].
  eexists. split; [vm_compute; reflexivity|]. split; [reflexivity|].
  simpl. tauto.
Qed.

(** C3 at the boundaries the specification lists. *)
Example verdict_boundaries :
  urlVerdict (ofZ 70) = malicious /\ urlVerdict (ofZ 69) = suspicious /\
  urlVerdict (ofZ 40) = suspicious /\ urlVerdict (ofZ 39) = safe /\
  emailVerdict (ofZ 80) = malicious /\ emailVerdict (ofZ 79) = suspicious /\
  emailVerdict (ofZ 50) = suspicious /\ emailVerdict (ofZ 49) = safe.
Proof. repeat split. Qed.

(** C4 at a concrete input: a first scan while every lookup fails scores
    60 and is stored; two later scans within the hour, made when IPQS
    would flag the URL, both return the stored url, verdict and score with
    [cached: true] and change nothing. *)
Lemma repeated_scan_witness :
  let first := aggregateSignals platform keyed (offline 1000) fresh example_target in
  let stored := {| r_url := "http://example.com/login"; r_verdict := suspicious;
                   r_score := ofZ 60; r_breakdown := EmptyBreakdown;
                   r_cached := None |} in
  let served := {| r_url := "http://example.com/login"; r_verdict := suspicious;
                   r_score := ofZ 60; r_breakdown := EmptyBreakdown;
                   r_cached := Some true |} in
  fst first = Return stored /\
  (exists e, cache (snd first) !! cacheKey example_target = Some e /\ e_value e = stored) /\
  repeatScan platform keyed
    [ipqs_flags_malicious (VNumber (ofZ 99)) 2000;
     ipqs_flags_malicious (VNumber (ofZ 99)) 3601250]
    (snd first) example_target
  = ([Return served; Return served], snd first).
Proof.
  cbv zeta. split; [vm_compute; reflexivity|].
  destruct (repeated_scan_served_from_cache platform keyed (offline 1000) fresh
              (snd (aggregateSignals platform keyed (offline 1000) fresh example_target))
              example_target
              {| r_url := "http://example.com/login"; r_verdict := suspicious;
                 r_score := ofZ 60; r_breakdown := EmptyBreakdown; r_cached := None |}
              [ipqs_flags_malicious (VNumber (ofZ 99)) 2000;
               ipqs_flags_malicious (VNumber (ofZ 99)) 3601250])
    as (_ & Hstored & _ & Hrepeat).
  - vm_compute; reflexivity.
  - vm_compute; reflexivity.
  - constructor; [right; cbn; lia|].
    constructor; [right; cbn; lia|]. constructor.
  - split; [exact Hstored | exact Hrepeat].
Defined.



Example worst_link_95 :
  worstLink tenLinks
  = {| highestLinkScore := ofZ 95;
       mostMaliciousLink := Some ("http://d.example/"%string, ofZ 95) |}.
Proof. vm_compute. reflexivity. Qed.

(** C7 on the failing input.  The targets [('http://a', 'b::c')] and
    [('http://a::b', 'c')] have different triples and the one fingerprint
    ["scan::http://a::b::c::"]; the scan of the second, a second after the
    scan of the first, is answered with the first's result: the url
    ['http://a'], with [cached: true]. *)
Lemma cacheKey_not_injective_witness :
  let first := aggregateSignals platform keyless (offline 1000) fresh collide_first in
  triple collide_first <> triple collide_second /\
  cacheKey collide_first = "scan::http://a::b::c::"%string /\
  cacheKey collide_second = "scan::http://a::b::c::"%string /\
  exists r,
    fst first = Return r /\ r_url r = "http://a"%string /\
    aggregateSignals platform keyless (offline 2000) (snd first) collide_second
    = (Return {| r_url := "http://a"; r_verdict := r_verdict r; r_score := r_score r;
                 r_breakdown := r_breakdown r; r_cached := Some true |},
       snd first).
Proof.
  cbv zeta.
  destruct (cacheKey_not_injective platform keyless "http://a" "b" "c" None)
    as (Htriple & _ & Hserved).
  split; [exact Htriple|]. split; [reflexivity|]. split; [reflexivity|].
  eexists. split; [vm_compute; reflexivity|].
  eapply (Hserved (offline 1000) (offline 2000) fresh).
  - reflexivity.
  - vm_compute. reflexivity.
  - right. cbn. lia.
Defined.

(** C8 fails as stated: the 200 response to a first scan has no [cached]
    key. *)
Lemma fresh_scan_has_no_cached_key :
  let resp := fst (post_scan platform keyless (offline 1000) fresh
                     {| req_url := Some "http://example.com/login"%string;
                        req_anchorText := None; req_senderDomain := None |}) in
  status resp = 200 /\
  exists aggregated, json resp = ScanBody true aggregated /\ r_cached aggregated = None.
Proof. split; [reflexivity|]. eexists. split; vm_compute; reflexivity. Qed.

(** C8 as amended, at a concrete input: the second scan of the same URL is
    answered 200 with [cached: true]. *)
Lemma scan_response_fields_witness :
  let req := {| req_url := Some "http://example.com/login"%string;
                req_anchorText := None; req_senderDomain := None |} in
  let st1 := snd (post_scan platform keyless (offline 1000) fresh req) in
  exists aggregated,
    json (fst (post_scan platform keyless (offline 2000) st1 req))
    = ScanBody true aggregated /\
    r_cached aggregated = Some true.
Proof.
  cbv zeta.
  destruct (scan_response_fields platform keyless (offline 2000)
              (snd (post_scan platform keyless (offline 1000) fresh
                      {| req_url := Some "http://example.com/login"%string;
                         req_anchorText := None; req_senderDomain := None |}))
              (snd (post_scan platform keyless (offline 2000)
                      (snd (post_scan platform keyless (offline 1000) fresh
                              {| req_url := Some "http://example.com/login"%string;
                                 req_anchorText := None; req_senderDomain := None |}))
                      {| req_url := Some "http://example.com/login"%string;
                         req_anchorText := None; req_senderDomain := None |}))
              {| req_url := Some "http://example.com/login"%string;
                 req_anchorText := None; req_senderDomain := None |}
              (fst (post_scan platform keyless (offline 2000)
                      (snd (post_scan platform keyless (offline 1000) fresh
                              {| req_url := Some "http://example.com/login"%string;
                                 req_anchorText := None; req_senderDomain := None |}))
                      {| req_url := Some "http://example.com/login"%string;
                         req_anchorText := None; req_senderDomain := None |})))
    as (aggregated & Hj & Hc).
  - apply surjective_pairing.
  - vm_compute. reflexivity.
  - exists aggregated. split; [exact Hj|]. exact Hc.
Defined.

(** C9 at concrete inputs: a relative reference scores 0; an unterminated
    IPv6 literal in the anchor text and a relative final URL are ignored,
    and the literal IPv4 host still earns its 12 points. *)
Lemma heuristicsScore_total_witness :
  heuristicsScore platform "/login" None (Some 0) None = Return 0 /\
  heuristicsScore platform "http://192.168.1.1/login" (Some "http://[::1"%string)
    (Some 0) (Some "/home"%string)
  = Return 12.
Proof.
  destruct (heuristicsScore_total platform "/login" None (Some 0) None)
    as (_ & H0 & _).
  destruct (heuristicsScore_total platform "http://192.168.1.1/login"
              (Some "http://[::1"%string) (Some 0) (Some "/home"%string))
    as (_ & _ & Ha & Hf).
  split; [apply H0; reflexivity|].
  rewrite (Hf "/home"%string eq_refl eq_refl).
  destruct (heuristicsScore_total platform "http://192.168.1.1/login"
              (Some "http://[::1"%string) (Some 0) None)
    as (_ & _ & Ha' & _).
  rewrite (Ha' "http://[::1"%string "http://[::1"%string eq_refl eq_refl eq_refl eq_refl).
  vm_compute. reflexivity.
Defined.

(** C10 at the input of the specification: [body = ""], with headers and a
    link present. *)
Lemma scan_email_without_body_witness :
  post_scan_email platform keyed (ipqs_flags_malicious (VNumber (ofZ 99)) 1000) fresh
    {| headers := Some "spf=fail"%string; body := Some ""%string;
       links := Some [{| href := "http://example.com/login";
                         link_anchorText := Some "Sign in"%string |}] |}
  = ({| status := 400; json := ErrorBody None "missing email body" |}, fresh).
Proof.
  apply (scan_email_without_body platform keyed). right. reflexivity.
Defined.

(** Scenarios of the specification, evaluated. *)
Example literal_ip_host_adds_12 :
  heuristicsScore platform "http://192.168.1.1/login" None (Some 0) None = Return 12.
Proof. vm_compute. reflexivity. Qed.

Example spf_and_dmarc_fail_score_50 :
  analyzeHeaders platform (Some "Authentication-Results: spf=fail; dmarc=fail"%string)
  = (50, {| rep_spf := fail; rep_dkim := neutral; rep_dmarc := fail;
            mismatch_from_return := false |}).
Proof. vm_compute. reflexivity. Qed.

Example no_signal_scores_60 :
  fst (aggregateSignals platform keyless (offline 1000) fresh example_target)
  = Return {| r_url := "http://example.com/login"; r_verdict := suspicious;
              r_score := ofZ 60; r_breakdown := EmptyBreakdown; r_cached := None |}.
Proof. vm_compute. reflexivity. Qed.

(** Two equal links of one email are scanned side by side: both read the
    cache before either writes it, so both are computed. *)
Example equal_links_of_one_email_both_computed :
  let link := {| href := "http://example.com/login"; link_anchorText := None |} in
  let scans := scanLinks platform keyless (offline 1000) fresh [link; link] in
  map (fun o => match o with Return r => r_cached r | Throw => None end) (fst scans)
  = [None; None]
  /\ length (calls (snd scans)) = 6%nat.
Proof. split; vm_compute; reflexivity. Qed.

(** ** The further properties at concrete inputs *)

Lemma fresh_cache_sound : cacheSound (cache fresh).
Proof. intros key e H. cbn in H. rewrite lookup_empty in H. discriminate. Qed.

(** X5 at a concrete input: IPQS reports the score 10 and the flag
    [malicious]. *)
Lemma readable_sources_witness :
  let w := ipqs_flags_malicious (VNumber (ofZ 10)) 1000 in
  exists r, fst (aggregateSignals platform keyed w fresh example_target) = Return r /\
    isScore (r_score r) /\
    r_verdict r = urlVerdict (r_score r) /\
    (explicitMalicious (callIPQS platform keyed w (url example_target)) = true ->
     ge (r_score r) (ofZ 85) = true /\ r_verdict r = malicious).
Proof.
  cbv zeta.
  apply (readable_sources_give_a_score platform keyed
           (ipqs_flags_malicious (VNumber (ofZ 10)) 1000) fresh example_target).
  - reflexivity.
  - vm_compute. exact I.
  - vm_compute. exact I.
Defined.


(** X22 at a concrete input: IPQS alone, its score raised from 10 to 90. *)
Lemma worse_signals_witness :
  exists z z',
    finalRaw (option_map ofZ (Some 10)) (option_map ofZ None) 0
      {| spf := true; dmarc := true |} = ofZ z /\
    finalRaw (option_map ofZ (Some 90)) (option_map ofZ None) 0
      {| spf := true; dmarc := true |} = ofZ z' /\
    z <= z'.
Proof.
  apply (worse_signals_never_lower_score (Some 10) (Some 90) None None 0 0
           {| spf := true; dmarc := true |}); cbn; lia.
Defined.


(** X8 at a concrete input: after the example target was scanned, a scan
    of another target leaves the example's entry as it is. *)
Lemma scan_touches_only_its_key_witness :
  let st1 := snd (aggregateSignals platform keyless (offline 1000) fresh example_target) in
  cache (snd (aggregateSignals platform keyless (offline 5000) st1 other_target))
    !! cacheKey example_target
  = cache st1 !! cacheKey example_target /\
  exists issued,
    calls (snd (aggregateSignals platform keyless (offline 5000) st1 other_target))
    = calls st1 ++ issued.
Proof.
  cbv zeta.
  apply (scan_touches_only_its_key platform keyless (offline 5000)
           (snd (aggregateSignals platform keyless (offline 1000) fresh example_target))
           other_target (cacheKey example_target)).
  vm_compute. discriminate.
Defined.

(** X9 at a concrete input: a result written at 1250 ms with a TTL of one
    hour is served at 2000 ms and computed again at 3601251 ms. *)
Lemma expired_entry_witness :
  let first := aggregateSignals platform keyless (offline 1000) fresh example_target in
  snd (repeatScan platform keyless [offline 2000] (snd first) example_target) = snd first /\
  exists r',
    r_cached r' = None /\
    aggregateSignals platform keyless (offline 3601251)
      (snd (repeatScan platform keyless [offline 2000] (snd first) example_target))
      example_target
    = (Return r',
       {| cache := cache_set keyless (settled (offline 3601251)) (cacheKey example_target)
                     r' (cache (snd first));
          calls := calls (snd first) ++ lookups example_target |}).
Proof.
  cbv zeta.
  eapply (expired_entry_is_recomputed platform keyless (offline 1000) (offline 3601251)
            fresh _ example_target _ [offline 2000]).
  - reflexivity.
  - vm_compute. reflexivity.
  - discriminate.
  - discriminate.
  - constructor; [cbn; lia | constructor].
  - cbn. lia.
Defined.

(** X10 at a concrete input: the result stored for [http://a] is what a
    scan of [http://a::b] is answered with. *)
Lemma colliding_target_witness :
  let first := aggregateSignals platform keyless (offline 1000) fresh collide_first in
  exists r,
    fst first = Return r /\
    url collide_second <> url collide_first /\
    aggregateSignals platform keyless (offline 2000) (snd first) collide_second
    = (Return (markCached r), snd first) /\
    r_url (markCached r) = url collide_first.
Proof.
  cbv zeta. eexists. split; [vm_compute; reflexivity|]. split; [discriminate|].
  eapply (colliding_target_gets_stored_result platform keyless (offline 1000) (offline 2000)
            fresh _ collide_first collide_second).
  - reflexivity.
  - reflexivity.
  - vm_compute. reflexivity.
  - right. cbn. lia.
Defined.

(** X11 at a concrete input: from the empty cache. *)
Lemma endpoints_keep_cache_sound_witness :
  cacheSound (cache (snd (post_scan platform keyed
                            (ipqs_flags_malicious (VString "n/a") 1000) fresh
                            example_scan_request))) /\
  cacheSound (cache (snd (post_scan_email platform keyed
                            (ipqs_flags_malicious (VString "n/a") 1000) fresh
                            one_link_email))).
Proof.
  apply (endpoints_keep_cache_sound platform keyed
           (ipqs_flags_malicious (VString "n/a") 1000) fresh
           example_scan_request one_link_email).
  exact fresh_cache_sound.
Defined.

(** X12 at a concrete input: the first scan of the example URL. *)
Lemma scan_response_is_sound_witness :
  match json (fst (post_scan platform keyless (offline 1000) fresh example_scan_request)) with
  | ScanBody ok aggregated => ok = true /\ soundScore aggregated
  | EmailBody _ _ _ _ => False
  | ErrorBody _ _ =>
      status (fst (post_scan platform keyless (offline 1000) fresh example_scan_request))
      = 400
  end.
Proof.
  apply (scan_response_is_sound platform keyless (offline 1000) fresh example_scan_request).
  exact fresh_cache_sound.
Defined.

(** X17 at a concrete input: an email with every header check failed,
    three urgency keywords and one link. *)
Lemma email_score_at_most_89_witness :
  match json (fst (post_scan_email platform keyless (offline 1000) fresh one_link_email)) with
  | EmailBody _ _ score _ => exists z, score = ofZ z /\ 0 <= z <= 89
  | _ => True
  end.
Proof.
  apply (email_score_at_most_89 platform keyless (offline 1000) fresh one_link_email).
  exact fresh_cache_sound.
Defined.

(** X16 at a concrete input: every header check failed and three urgency
    keywords, but no link: the verdict is [safe]. *)
Lemma email_without_links_witness :
  exists z, 0 <= z <= 49 /\
    post_scan_email platform keyless (offline 1000) fresh linkless_email
    = ({| status := 200;
          json := EmailBody true safe (ofZ z)
                    {| headerAnalysis := snd (analyzeHeaders platform (headers linkless_email));
                       bodyAnalysis_keywords := snd (analyzeBody platform (body linkless_email));
                       linkAnalysis := {| highestLinkScore := ofZ 0;
                                          mostMaliciousLink := None |};
                       breakdown_finalScore := ofZ z |} |}, fresh).
Proof.
  apply (email_without_links_is_safe platform keyless (offline 1000) fresh linkless_email);
    [reflexivity | left; reflexivity].
Defined.

Example linkless_email_scores_33 :
  fst (post_scan_email platform keyless (offline 1000) fresh linkless_email)
  = {| status := 200;
       json := EmailBody true safe (ofZ 33)
                 {| headerAnalysis := {| rep_spf := fail; rep_dkim := fail;
                                         rep_dmarc := fail;
                                         mismatch_from_return := false |};
                    bodyAnalysis_keywords :=
                      ["urgent"; "account suspended"; "verify your account"]%string;
                    linkAnalysis := {| highestLinkScore := ofZ 0;
                                       mostMaliciousLink := None |};
                    breakdown_finalScore := ofZ 33 |} |}.
Proof. vm_compute. reflexivity. Qed.

(** X20 at concrete inputs: the default backend URL gives the sibling
    endpoint; a host that begins with "scan" is cut instead. *)
Lemma emailEndpoint_witness :
  emailEndpoint (Some "http://localhost:8080/scan"%string)
  = "http://localhost:8080/scan-email"%string /\
  emailEndpoint (Some "http://scanner.example/scan"%string)
  = "http:/ner.example/scan/scan-email"%string.
Proof.
  split.
  - apply (emailEndpoint_removes_first_scan "http://localhost:8080" ""). reflexivity.
  - apply (emailEndpoint_removes_first_scan "http:/" "ner.example/scan"). reflexivity.
Defined.

Example emailEndpoint_default :
  emailEndpoint None = "http://localhost:8080/scan-email"%string /\
  scanEndpoint None = "http://localhost:8080/scan"%string /\
  scanEndpoint (Some ""%string) = "http://localhost:8080/scan"%string.
Proof. repeat split. Qed.

(** X21 at a concrete input: the schedule [overlapping_feedback] on a file
    that holds earlier text.  The second request's line stands between the
    two pieces of the first, which was answered 500 with fifteen characters
    of its line written. *)
Lemma feedback_only_appends_witness :
  let line0 := feedbackLine stringify_plain
                 {| entry_ts := "2024-05-01T10:00:00.000Z";
                    entry_url := "http://example.com/login";
                    entry_verdict := "safe"; entry_comment := "" |} in
  let line1 := feedbackLine stringify_plain
                 {| entry_ts := "2024-05-01T10:00:00.001Z";
                    entry_url := "http://b.example/";
                    entry_verdict := "malicious"; entry_comment := "phish" |} in
  exists st,
    feedbackRun stringify_plain overlapping_feedback (feedbackStart "earlier") = Some st /\
    feedback_json st
    = ("earlier" ++ keep 10 line0 ++ line1 ++ keep 5 (skip 10 line0))%string /\
    handlers st
    = [Answered {| fb_status := 500;
                   fb_json := FeedbackError (Some false) "feedback_failed" |};
       Answered {| fb_status := 200; fb_json := FeedbackOk |};
       Answered {| fb_status := 400;
                   fb_json := FeedbackError None "missing url or verdict" |};
       Answered {| fb_status := 500;
                   fb_json := FeedbackError (Some false) "feedback_failed" |}] /\
    feedback_json st = ("earlier" ++ join_empty (map snd (appended st)))%string /\
    (exists rest, (written_by 0 (appended st) ++ rest)%string = line0) /\
    written_by 1 (appended st) = line1 /\
    written_by 2 (appended st) = EmptyString.
Proof.
  cbv zeta. eexists. split; [vm_compute; reflexivity|].
  split; [vm_compute; reflexivity|]. split; [vm_compute; reflexivity|].
  match goal with |- feedback_json ?st = _ /\ _ =>
    destruct (feedback_only_appends stringify_plain overlapping_feedback "earlier" st)
      as (Hfile & _ & Hreq); [vm_compute; reflexivity|]
  end.
  split; [exact Hfile|]. split; [|split].
  - destruct (Hreq 0%nat _ _ _ eq_refl eq_refl) as [[H _] | [_ H]];
      [discriminate H | exact H].
  - destruct (Hreq 1%nat _ _ _ eq_refl eq_refl) as [[_ H] | [H _]];
      [exact H | discriminate H].
  - exact (proj2 (Hreq 2%nat _ _ _ eq_refl eq_refl)).
Defined.
